(** * gis2mesh.py: the mesh pipeline orchestrator of pputils

    A shallow embedding of [src/gis2mesh.py].  The script is a straight-line
    orchestrator: it reads its environment and command line, calls helper
    scripts and the Triangle binary as sub-processes, appends the area
    constraints to [mesh.poly], and removes the temporary files.

    The script is embedded as a computation in a state-and-exception monad.
    The state holds the file system and the chronological trace of the
    observable actions of the script itself (prints, sub-process calls,
    writes, removals).  Everything the script reads from its surroundings
    is a field of [World]; in particular the behaviour of the external
    programs is the oracle [spawn]. *)

From Stdlib Require Import ZArith String Ascii List DecimalString Lia.
From stdpp Require Import base option list strings gmap.

Open Scope string_scope.
Open Scope list_scope.

(** ** Python values that the script manipulates *)

(** The exceptions that can occur in the script. *)
Inductive exn := NameError | OSError | IndexError | ValueError.

(** The three ways a piece of Python code can end: normally, by
    [sys.exit()], or by an exception. *)
Inductive res (A : Type) :=
| Ok (a : A)
| SysExit
| Raise (e : exn).
Arguments Ok {A} a.
Arguments SysExit {A}.
Arguments Raise {A} e.

(** The line feed character and the one-character string ['\n']. *)
Definition LF : ascii := ascii_of_nat 10.
Definition CR : ascii := ascii_of_nat 13.
Definition nl : string := String LF "".

(** [str(n)] for a non-negative Python int. *)
Definition str_int (n : nat) : string := NilEmpty.string_of_uint (Nat.to_uint n).

(** Python's comparison [a > b] on tuples of ints (lexicographic; when one
    tuple is a prefix of the other the longer one is the greater). *)
Fixpoint tuple_gt (a b : list Z) : bool :=
  match a, b with
  | x :: a', y :: b' => if (x =? y)%Z then tuple_gt a' b' else (x >? y)%Z
  | _ :: _, [] => true
  | [], _ => false
  end.

(** [s.split(c)]: the pieces of [s] between the occurrences of [c]; always
    at least one piece. *)
Fixpoint split_on (c : ascii) (s : string) : list string :=
  match s with
  | EmptyString => [EmptyString]
  | String a rest =>
      if Ascii.eqb a c then EmptyString :: split_on c rest
      else match split_on c rest with
           | [] => [String a EmptyString]
           | piece :: pieces => String a piece :: pieces
           end
  end.

(** The part of [s] before the last occurrence of [c]; [None] when [c] does
    not occur in [s]. *)
Fixpoint before_last (c : ascii) (s : string) : option string :=
  match s with
  | EmptyString => None
  | String a rest =>
      match before_last c rest with
      | Some h => Some (String a h)
      | None => if Ascii.eqb a c then Some EmptyString else None
      end
  end.

(** [s.rsplit('.',1)[0]] *)
Definition rsplit_dot_head (s : string) : string :=
  default s (before_last "." s).

(** [s.lstrip('\r')] and [s.strip('\r')]; line feeds cannot occur inside a
    line that was obtained by splitting at line feeds. *)
Fixpoint lstrip_cr (s : string) : string :=
  match s with
  | String a rest => if Ascii.eqb a CR then lstrip_cr rest else s
  | EmptyString => EmptyString
  end.

Fixpoint rstrip_cr (s : string) : string :=
  match s with
  | EmptyString => EmptyString
  | String a rest =>
      match rstrip_cr rest with
      | EmptyString => if Ascii.eqb a CR then EmptyString else String a EmptyString
      | rest' => String a rest'
      end
  end.

Definition strip_cr (s : string) : string := rstrip_cr (lstrip_cr s).

(** The lines of a text file, as [readlines()] counts them: every line feed
    ends a line, and a non-empty rest after the last line feed is a line of
    its own.  The lines are returned without their terminator. *)
Definition text_lines (content : string) : list string :=
  let pieces := split_on LF content in
  match rev pieces with
  | EmptyString :: before => rev before
  | _ => pieces
  end.

(** ** numpy

    Floating-point numbers are not modelled: the type of [numpy.float64]
    values, the conversion of a text field to such a value and Python's
    [str] on floats and on one-dimensional arrays are the interface
    [Numpy]. *)
Class Numpy (F : Type) := {
  parse_float : string -> option F;   (* float(field); None: ValueError *)
  float_str : F -> string;            (* str(x) for a float64 *)
  array_str : list F -> string        (* str(a) for a 1-d array *)
}.

Section Arrays.
Context {F : Type} `{Numpy F}.

(** The arrays [np.loadtxt] can return: 0-, 1- and 2-dimensional.  A
    2-dimensional array is the list of its rows (axis 0). *)
Inductive ndarray :=
| Scalar (x : F)
| Vec (xs : list F)
| Mat (m : list (list F)).

(** The result of an indexing expression. *)
Inductive pyval :=
| VFloat (x : F)
| VArray (xs : list F).

Definition py_str (v : pyval) : string :=
  match v with
  | VFloat x => float_str x
  | VArray xs => array_str xs
  end.

(** [a[k]] *)
Definition getitem1 (a : ndarray) (k : nat) : res pyval :=
  match a with
  | Scalar _ => Raise IndexError
  | Vec xs => match xs !! k with Some x => Ok (VFloat x) | None => Raise IndexError end
  | Mat m => match m !! k with Some r => Ok (VArray r) | None => Raise IndexError end
  end.

(** [a[k,i]] *)
Definition getitem2 (a : ndarray) (k i : nat) : res F :=
  match a with
  | Scalar _ | Vec _ => Raise IndexError
  | Mat m =>
      match m !! k with
      | Some r => match r !! i with Some x => Ok x | None => Raise IndexError end
      | None => Raise IndexError
      end
  end.

(** The fields of one line of the file: the comment (from [#] on) and the
    line terminator are dropped, an empty line has no fields, and the
    rest is split at the delimiter [,]. *)
Definition split_line (line : string) : list string :=
  let line := strip_cr (List.hd EmptyString (split_on "#" line)) in
  if String.eqb line "" then [] else split_on "," line.

(** The rows of floats of a text: lines without fields are skipped, every
    field of the other lines is converted; [None] stands for the
    [ValueError] of a field that is not a number. *)
Definition parse_rows (lines : list string) : option (list (list F)) :=
  mapM (mapM parse_float)
       (filter (fun fields => fields <> []) (map split_line lines)).

(** Column [k] of a list of rows. *)
Definition column (k : nat) (rows : list (list F)) : list F :=
  omap (fun r => r !! k) rows.

(** The array for the rows read, after [squeeze] (axes of length one are
    dropped) and [unpack=True] (the array is transposed). *)
Definition to_ndarray (rows : list (list F)) : ndarray :=
  match rows with
  | [] => Vec []
  | [r] => match r with [x] => Scalar x | _ => Vec r end
  | r :: _ :: _ =>
      match length r with
      | 1 => Vec (column 0 rows)
      | c => Mat (map (fun k => column k rows) (seq 0 c))
      end
  end.

(** All rows must have as many columns as the first one. *)
Definition same_columns (rows : list (list F)) : bool :=
  match rows with
  | [] => true
  | r :: rest => forallb (fun r' => Nat.eqb (length r') (length r)) rest
  end.

(** [np.loadtxt(f, delimiter=',', skiprows=0, unpack=True)] on the
    content of the file. *)
Definition loadtxt_text (content : string) : res ndarray :=
  match parse_rows (text_lines content) with
  | Some rows => if same_columns rows then Ok (to_ndarray rows) else Raise ValueError
  | None => Raise ValueError
  end.
End Arrays.
Arguments ndarray F : clear implicits.
Arguments pyval F : clear implicits.

(** ** The surroundings of a run *)

(** The file system: the content of every existing file, by name. *)
Abbreviation FS := (gmap string string).

(** What the script reads from its surroundings. *)
Record World := {
  environ_PPUTILS : option string;  (* os.environ['PPUTILS'], None: KeyError *)
  getcwd : string;                  (* os.getcwd() *)
  version_info : list Z;            (* sys.version_info: major, minor, micro *)
  argv : list string;               (* sys.argv *)
  calcsize_P : Z;                   (* struct.calcsize("P") *)
  os_name : string;                 (* os.name *)
  uname_machine : string;           (* os.uname()[4] *)
  (* an external program run on a file system: None when the program cannot
     be started (subprocess.call raises OSError), else its return code and
     the file system it leaves *)
  spawn : list string -> FS -> option (Z * FS);
  files : FS                        (* the files when the script starts *)
}.

(** The observable actions of the script itself. *)
Inductive event :=
| EvPrint (text : string)
| EvCall (args : list string) (rc : option Z)  (* None: OSError raised *)
| EvWrite (file text : string)
| EvRemove (file : string).

Record state := { fs : FS; trace : list event }.

Definition log (e : event) (st : state) : state :=
  {| fs := fs st; trace := trace st ++ [e] |}.

(** ** The monad of the script *)

Definition M (A : Type) : Type := state -> res A * state.

Definition ret {A} (a : A) : M A := fun st => (Ok a, st).

Definition bind {A B} (m : M A) (k : A -> M B) : M B := fun st =>
  match m st with
  | (Ok a, st') => k a st'
  | (SysExit, st') => (SysExit, st')
  | (Raise e, st') => (Raise e, st')
  end.

Notation "x <- c1 ;; c2" := (bind c1 (fun x => c2))
  (at level 100, c1 at next level, right associativity).
Notation "c1 ;; c2" := (bind c1 (fun _ => c2))
  (at level 100, right associativity).

Definition raise {A} (e : exn) : M A := fun st => (Raise e, st).

(** [sys.exit()] *)
Definition sys_exit {A} : M A := fun st => (SysExit, st).

Definition lift {A} (r : res A) : M A := fun st => (r, st).

(** [try: body / except: handler] with a bare [except], which catches every
    exception; what the body did before it raised stays done. *)
Definition try_except {A} (body handler : M A) : M A := fun st =>
  match body st with
  | (Ok a, st') => (Ok a, st')
  | (_, st') => handler st'
  end.

(** [for i in range(n): body] *)
Fixpoint for_range (indices : list nat) (body : nat -> M unit) : M unit :=
  match indices with
  | [] => ret tt
  | i :: rest => body i ;; for_range rest body
  end.

(** ** The primitives the script calls *)

Definition print (text : string) : M unit := fun st => (Ok tt, log (EvPrint text) st).

(** [subprocess.call(args)]: the return code of the program, or [OSError]
    when it cannot be started. *)
Definition subprocess_call (w : World) (args : list string) : M Z := fun st =>
  match spawn w args (fs st) with
  | Some (rc, fs') =>
      (Ok rc, {| fs := fs'; trace := trace st ++ [EvCall args (Some rc)] |})
  | None => (Raise OSError, log (EvCall args None) st)
  end.

(** Reading a module-level name that may be unbound. *)
Definition read_name {A} (binding : option A) : M A :=
  match binding with
  | Some v => ret v
  | None => raise NameError
  end.

(** [open(file, 'a')]: the file is created when it does not exist. *)
Definition open_append (file : string) : M unit := fun st =>
  (Ok tt, {| fs := <[file := default "" (fs st !! file)]> (fs st); trace := trace st |}).

(** [f.write(text)] on a file opened for appending. *)
Definition f_write (file text : string) : M unit := fun st =>
  (Ok tt, {| fs := <[file := default "" (fs st !! file) +:+ text]> (fs st);
             trace := trace st ++ [EvWrite file text] |}).

(** [os.remove(file)] *)
Definition os_remove (file : string) : M unit := fun st =>
  match fs st !! file with
  | Some _ => (Ok tt, {| fs := delete file (fs st); trace := trace st ++ [EvRemove file] |})
  | None => (Raise OSError, st)
  end.

(** The content of a file that is opened for reading. *)
Definition read_file (file : string) : M string := fun st =>
  match fs st !! file with
  | Some content => (Ok content, st)
  | None => (Raise OSError, st)
  end.

(** ** The script *)

(** The file names given on the command line. *)
Record files_given := {
  nodes_file : string;
  boundary_file : string;
  lines_file : string;
  holes_file : string;
  areas_file : string;
  output_file : string
}.

(** Lines 83-97: the installation root and the interpreter name.  The
    interpreter name [pystr] is bound only in the [except] branch, and there
    only for a version above (2, 7). *)
Definition curdir (w : World) : string := getcwd w.

Definition module_names (w : World) : string * option string :=
  match environ_PPUTILS w with
  | Some root => (root, None)
  | None =>
      (curdir w,
       if tuple_gt (version_info w) [3; 0]%Z then Some "python3"
       else if tuple_gt (version_info w) [2; 7]%Z then Some "python"
       else None)
  end.

Definition pputils_path (w : World) : string := fst (module_names w).
Definition pystr (w : World) : option string := snd (module_names w).

Definition usage : string :=
  "python gis2mesh.py -n nodes.csv -b boundary.csv -l lines.csv -h holes.csv -a areas.csv -o mesh.grd".

(** Lines 100-111: the command line. *)
Definition parse_args (w : World) : M files_given :=
  if Nat.eqb (length (argv w)) 13 then
    ret {| nodes_file := nth 2 (argv w) "";
           boundary_file := nth 4 (argv w) "";
           lines_file := nth 6 (argv w) "";
           holes_file := nth 8 (argv w) "";
           areas_file := nth 10 (argv w) "";
           output_file := nth 12 (argv w) "" |}
  else
    print "Wrong number of Arguments, stopping now...";;
    print "Usage:";;
    print usage;;
    sys_exit.

(** Line 114 *)
Definition archtype (w : World) : Z := (calcsize_P w * 8)%Z.

(** The pattern of lines 118-125, 178-183 and 196-199: the helper script is
    called directly and, when that raises, through the interpreter. *)
Definition call_helper (w : World) (cmd : list string) : M Z :=
  try_except (subprocess_call w cmd)
             (py <- read_name (pystr w);; subprocess_call w (py :: cmd)).

(** Lines 117-125 *)
Definition gis2triangle (w : World) (a : files_given) : M unit :=
  print "Generating Triangle input files ...";;
  call_helper w ["gis2triangle.py"; "-n"; nodes_file a; "-b"; boundary_file a;
                 "-l"; lines_file a; "-h"; holes_file a; "-o"; "mesh.poly"];;
  ret tt.

(** Lines 154-174: the Triangle binary for the platform. *)
Definition run_triangle (w : World) : M unit :=
  if String.eqb (os_name w) "posix" then
    let proctype := uname_machine w in
    if String.eqb proctype "i686" then
      subprocess_call w [pputils_path w +:+ "/triangle/bin/triangle_32"; "-Dqa"; "mesh.poly"];;
      ret tt
    else if String.eqb proctype "x86_64" then
      subprocess_call w [pputils_path w +:+ "/triangle/bin/triangle_64"; "-Dqa"; "mesh.poly"];;
      ret tt
    else if String.eqb proctype "armv7l" then
      subprocess_call w [pputils_path w +:+ "/triangle/bin/triangle_pi32"; "-Dqa"; "mesh.poly"];;
      ret tt
    else ret tt
  else if String.eqb (os_name w) "nt" then
    subprocess_call w [".\triangle\bin\triangle_32.exe"; "-Dqa"; "mesh.poly"];;
    ret tt
  else
    print "OS not supported!";;
    print "Exiting!";;
    sys_exit.

(** Lines 177-183 *)
Definition triangle2adcirc (w : World) (a : files_given) : M unit :=
  print "Converting Triangle output to ADCIRC mesh format ...";;
  call_helper w ["triangle2adcirc.py"; "-n"; "mesh.1.node"; "-e"; "mesh.1.ele";
                 "-o"; output_file a];;
  ret tt.

(** Lines 186-189 *)
Definition remove_temporary_files : M unit :=
  os_remove "mesh.poly";;
  os_remove "mesh.1.poly";;
  os_remove "mesh.1.node";;
  os_remove "mesh.1.ele".

(** Line 192 *)
Definition wkt_file (a : files_given) : string :=
  rsplit_dot_head (output_file a) +:+ "WKT.csv".

(** Lines 195-199 *)
Definition adcirc2wkt (w : World) (a : files_given) : M unit :=
  print "Converting ADCIRC mesh to wkt format ...";;
  call_helper w ["adcirc2wkt.py"; "-i"; output_file a; "-o"; wkt_file a];;
  ret tt.

Section Areas.
Context {F : Type} `{Numpy F}.

(** Line 128 *)
Definition np_loadtxt (file : string) : M (ndarray F) :=
  content <- read_file file;; lift (loadtxt_text content).

(** Line 132: [len(open(areas_file).readlines())] *)
Definition count_lines (file : string) : M nat :=
  content <- read_file file;; ret (length (text_lines content)).

(** Lines 144-146: the record written when there is one area. *)
Definition write_single (areas_data : ndarray F) : M unit :=
  x <- lift (getitem1 areas_data 0);;
  y <- lift (getitem1 areas_data 1);;
  area <- lift (getitem1 areas_data 2);;
  f_write "mesh.poly"
    ("1" +:+ " " +:+ py_str x +:+ " " +:+ py_str y +:+ " " +:+ str_int 0
         +:+ " " +:+ py_str area +:+ nl).

(** Lines 149-151: the record written for area [i] otherwise. *)
Definition write_indexed (areas_data : ndarray F) (i : nat) : M unit :=
  x <- lift (getitem2 areas_data 0 i);;
  y <- lift (getitem2 areas_data 1 i);;
  area <- lift (getitem2 areas_data 2 i);;
  f_write "mesh.poly"
    (str_int (i + 1) +:+ " " +:+ float_str x +:+ " " +:+ float_str y +:+ " "
         +:+ str_int 0 +:+ " " +:+ float_str area +:+ nl).

(** Lines 148-151 *)
Definition write_multi (areas_data : ndarray F) (num_areas : nat) : M unit :=
  for_range (seq 0 num_areas) (write_indexed areas_data).

(** Lines 138-151: the area constraints are appended to [mesh.poly]. *)
Definition append_areas (areas_data : ndarray F) (num_areas : nat) : M unit :=
  open_append "mesh.poly";;
  f_write "mesh.poly" nl;;
  f_write "mesh.poly" (str_int num_areas +:+ nl);;
  if Nat.eqb num_areas 1 then write_single areas_data
  else write_multi areas_data num_areas.

(** Lines 127-151 *)
Definition areas_stage (file : string) : M unit :=
  areas_data <- np_loadtxt file;;
  num_areas <- count_lines file;;
  append_areas areas_data num_areas.

(** The whole script. *)
Definition main (w : World) : M unit :=
  a <- parse_args w;;
  gis2triangle w a;;
  areas_stage (areas_file a);;
  run_triangle w;;
  triangle2adcirc w a;;
  remove_temporary_files;;
  adcirc2wkt w a.


Definition initial (w : World) : state := {| fs := files w; trace := [] |}.

Definition run (w : World) : res unit * state := main w (initial w).
End Areas.

(** The exit status of the interpreter: 0 when the script runs to its end
    and for [sys.exit()] without an argument, 1 for an uncaught
    exception. *)
Definition exit_status (r : res unit) : Z :=
  match r with
  | Ok _ | SysExit => 0
  | Raise _ => 1
  end.

(** ** The regional-attribute block, in the words of the specification

    The block is prefixed by its element count; each record carries a
    1-based sequential ID in listing order, then x, y, 0 and the maximum
    area. *)
Module Spec.
Section Block.
Context {F : Type} `{Numpy F}.

Definition region_record (id : nat) (row : F * F * F) : string :=
  let '(x, y, area) := row in
  str_int id +:+ " " +:+ float_str x +:+ " " +:+ float_str y +:+ " 0 "
    +:+ float_str area +:+ nl.

(** The records of a listing whose first row gets the ID [first]. *)
Fixpoint region_records (first : nat) (rows : list (F * F * F)) : list string :=
  match rows with
  | [] => []
  | row :: rest => region_record first row :: region_records (S first) rest
  end.

(** The block, as the pieces it is made of: the count line, then one
    record per row. *)
Definition region_pieces (rows : list (F * F * F)) : list string :=
  (str_int (length rows) +:+ nl) :: region_records 1 rows.

End Block.
End Spec.

(** ** Vocabulary for the statements *)

Section Listing.
Context {F : Type} `{Numpy F}.

Definition row_fields (row : F * F * F) : list F :=
  let '(x, y, area) := row in [x; y; area].


(** The array of a listing of two rows or more: its three columns. *)
Definition columns (rows : list (F * F * F)) : ndarray F :=
  Mat [map (fun r => r.1.1) rows; map (fun r => r.1.2) rows; map (fun r => r.2) rows].
End Listing.

(** The file system after [text] was appended to [file]. *)
Definition append_text (file text : string) (m : FS) : FS :=
  <[file := default "" (m !! file) +:+ text]> m.

(** The state after the pieces were written, one after the other, to a
    file opened for appending. *)
Definition written (file : string) (pieces : list string) (st : state) : state :=
  {| fs := append_text file (String.concat "" pieces) (fs st);
     trace := trace st ++ map (EvWrite file) pieces |}.

(** The state after an external program was run. *)
Definition called (args : list string) (rc : Z) (fs' : FS) (st : state) : state :=
  {| fs := fs'; trace := trace st ++ [EvCall args (Some rc)] |}.

(** The platforms for which the script has a binary. *)
Definition posix_variants : list (string * string) :=
  [("i686", "/triangle/bin/triangle_32");
   ("x86_64", "/triangle/bin/triangle_64");
   ("armv7l", "/triangle/bin/triangle_pi32")].

Definition nt_binary : string := ".\triangle\bin\triangle_32.exe".

Definition known_cpu (cpu : string) : Prop := In cpu (map fst posix_variants).


Definition helper_scripts : list string :=
  ["gis2triangle.py"; "triangle2adcirc.py"; "adcirc2wkt.py"].

(** A direct call of a helper script that raised. *)
Definition failed_direct_call (e : event) : Prop :=
  exists script rest, e = EvCall (script :: rest) None /\ In script helper_scripts.

(** A call of a helper script through an interpreter. *)
Definition interpreter_call (e : event) : Prop :=
  exists py script rest rc, e = EvCall (py :: script :: rest) rc /\ In script helper_scripts.


Definition temporary_files : list string :=
  ["mesh.poly"; "mesh.1.poly"; "mesh.1.node"; "mesh.1.ele"].


(** The same surroundings with another command line. *)
Definition with_argv (w : World) (args : list string) : World :=
  {| environ_PPUTILS := environ_PPUTILS w;
     getcwd := getcwd w;
     version_info := version_info w;
     argv := args;
     calcsize_P := calcsize_P w;
     os_name := os_name w;
     uname_machine := uname_machine w;
     spawn := spawn w;
     files := files w |}.

(** The positions of the command line that hold the file names. *)
Definition name_positions : list nat := [2; 4; 6; 8; 10; 12].

(** How a computation ended, whatever it returned. *)
Inductive outcome := Done | Exited | Raised (e : exn).

Definition outcome_of {A} (r : res A) : outcome :=
  match r with
  | Ok _ => Done
  | SysExit => Exited
  | Raise e => Raised e
  end.

(** [emits m P]: from every state, [m] only adds actions to the trace, and
    the way it ends and the actions added satisfy [P]. *)
Definition emits {A} (m : M A) (P : outcome -> list event -> Prop) : Prop :=
  forall st, exists evs, trace (m st).2 = trace st ++ evs /\ P (outcome_of (m st).1) evs.

(** A property of the actions of a run that sequencing preserves. *)
Record stable (P : outcome -> list event -> Prop) : Prop := {
  stable_nil : P Done [];
  stable_app : forall evs1 o evs2, P Done evs1 -> P o evs2 -> P o (evs1 ++ evs2)
}.

(** The binary that the script has for the platform. *)
Definition engine_binary (w : World) (bin : string) : Prop :=
  (os_name w = "nt" /\ bin = nt_binary) \/
  (os_name w = "posix" /\
   exists rel, In (uname_machine w, rel) posix_variants /\ bin = pputils_path w +:+ rel).

(** The actions of a helper-script invocation (lines 118-125, 178-183,
    196-199) and how it ends. *)
Definition helper_actions (w : World) (cmd : list string) (o : outcome) (evs : list event) : Prop :=
  (exists rc, o = Done /\ evs = [EvCall cmd (Some rc)]) \/
  (pystr w = None /\ o = Raised NameError /\ evs = [EvCall cmd None]) \/
  (exists py, pystr w = Some py /\
     ((exists rc, o = Done /\ evs = [EvCall cmd None; EvCall (py :: cmd) (Some rc)]) \/
      (o = Raised OSError /\ evs = [EvCall cmd None; EvCall (py :: cmd) None]))).

(** The actions of the engine stage (lines 154-174) and how it ends. *)
Definition engine_actions (w : World) (o : outcome) (evs : list event) : Prop :=
  (o = Done /\ evs = [] /\ os_name w = "posix" /\ ~ known_cpu (uname_machine w)) \/
  (o = Exited /\ evs = [EvPrint "OS not supported!"; EvPrint "Exiting!"] /\
   os_name w <> "posix" /\ os_name w <> "nt") \/
  (exists bin, engine_binary w bin /\
     ((exists rc, o = Done /\ evs = [EvCall [bin; "-Dqa"; "mesh.poly"] (Some rc)]) \/
      (o = Raised OSError /\ evs = [EvCall [bin; "-Dqa"; "mesh.poly"] None]))).

(** The actions of the removal of the temporary files (lines 186-189). *)
Definition cleanup_actions (o : outcome) (evs : list event) : Prop :=
  exists k, evs = map EvRemove (take k temporary_files) /\
            ((o = Done /\ k = 4) \/ (o = Raised OSError /\ k < 4)).

(** Only writes to [mesh.poly]. *)
Definition writes_only (o : outcome) (evs : list event) : Prop :=
  exists texts, evs = map (EvWrite "mesh.poly") texts.




(** The file names at the name positions of a command line. *)
Definition names_of (args : list string) : files_given :=
  {| nodes_file := nth 2 args "";
     boundary_file := nth 4 args "";
     lines_file := nth 6 args "";
     holes_file := nth 8 args "";
     areas_file := nth 10 args "";
     output_file := nth 12 args "" |}.

(** No helper script is called through an interpreter, and a direct call of
    a helper script that raised ends the computation with [NameError]. *)
Definition fallback_fails (o : outcome) (evs : list event) : Prop :=
  Forall (fun e => ~ interpreter_call e) evs /\
  (Exists failed_direct_call evs -> o = Raised NameError).



(** ** Concrete surroundings, to run the script on *)

(** Fields kept as text: a stand-in for [numpy.float64] in which a number
    is its own printed form. *)
#[export] Instance text_numpy : Numpy string := {|
  parse_float := fun field => if String.eqb field "" then None else Some field;
  float_str := fun x => x;
  array_str := fun xs => "[" +:+ String.concat " " xs +:+ "]"
|}.

(** The files that the engine of the concrete surroundings leaves. *)
Definition engine_output (m : FS) : FS :=
  <["mesh.1.ele" := "ELE"]> (<["mesh.1.node" := "NODE"]> (<["mesh.1.poly" := "POLY"]> m)).

(** External programs that all start: the helper scripts and the engine
    leave the files they are expected to write; the engine returns
    [engine_rc]. *)
Definition demo_spawn (engine_rc : Z) (args : list string) (fs : FS) : option (Z * FS) :=
  match args with
  | [] => None
  | prog :: _ =>
      if String.eqb prog "gis2triangle.py" then Some (0%Z, <["mesh.poly" := "PSLG"]> fs)
      else if String.eqb prog "triangle2adcirc.py" then Some (0%Z, <["mesh.grd" := "GRD"]> fs)
      else if String.eqb prog "adcirc2wkt.py" then Some (0%Z, <["meshWKT.csv" := "WKT"]> fs)
      else Some (engine_rc, engine_output fs)
  end.

Definition demo_argv (areas : string) : list string :=
  ["gis2mesh.py"; "-n"; "nodes.csv"; "-b"; "boundary.csv"; "-l"; "lines.csv";
   "-h"; "none"; "-a"; areas; "-o"; "mesh.grd"].

Definition demo_world (root : option string) (os cpu : string) (args : list string)
    (engine_rc : Z) (areas_text : string) : World :=
  {| environ_PPUTILS := root;
     getcwd := "/home/user/run";
     version_info := [3; 8; 10]%Z;
     argv := args;
     calcsize_P := 8;
     os_name := os;
     uname_machine := cpu;
     spawn := demo_spawn engine_rc;
     files := {[ "areas.csv" := areas_text ]} |}.

Definition two_areas : string := "1.5,2.5,10" +:+ nl +:+ "3.5,4.5,20" +:+ nl.


(** A state in which [gis2triangle.py] has written [mesh.poly]. *)
Definition poly_written : state :=
  {| fs := <["mesh.poly" := "PSLG"]> {[ "areas.csv" := two_areas ]}; trace := [] |}.

(** External programs when the helper scripts are not on the search path:
    their direct calls cannot be started. *)
Definition spawn_off_path (args : list string) (fs : FS) : option (Z * FS) :=
  match args with
  | [] => None
  | prog :: _ =>
      if existsb (String.eqb prog) helper_scripts then None
      else demo_spawn 0 args fs
  end.

(** A Linux machine with the installation root set and the helper scripts
    not on the search path. *)
Definition off_path_world : World :=
  {| environ_PPUTILS := Some "/opt/pputils";
     getcwd := "/home/user/run";
     version_info := [3; 8; 10]%Z;
     argv := demo_argv "areas.csv";
     calcsize_P := 8;
     os_name := "posix";
     uname_machine := "x86_64";
     spawn := spawn_off_path;
     files := {[ "areas.csv" := two_areas ]} |}.

(** The same command line with other labels, in another order. *)
Definition relabelled_argv : list string :=
  ["gis2mesh.py"; "-o"; "nodes.csv"; "-a"; "boundary.csv"; "--lines"; "lines.csv";
   "x"; "none"; ""; "areas.csv"; "-n"; "mesh.grd"].

(** Concrete surroundings: a 64-bit Linux machine on which everything goes
    well; the same with an engine that returns the status 1; a 64-bit ARM
    Linux machine; Windows with the installation root set; an unknown
    operating system; and command lines with the areas given as [none]
    and with too few tokens. *)
Definition linux64 : World :=
  demo_world None "posix" "x86_64" (demo_argv "areas.csv") 0 two_areas.


Definition linux_arm64 : World :=
  demo_world None "posix" "aarch64" (demo_argv "areas.csv") 0 two_areas.

Definition linux64_rooted : World :=
  demo_world (Some "/opt/pputils") "posix" "x86_64" (demo_argv "areas.csv") 0 two_areas.

Definition windows_rooted : World :=
  demo_world (Some "/opt/pputils") "nt" "AMD64" (demo_argv "areas.csv") 0 two_areas.

Definition unknown_os : World :=
  demo_world None "java" "x86_64" (demo_argv "areas.csv") 0 two_areas.

Definition linux64_areas_none : World :=
  demo_world None "posix" "x86_64" (demo_argv "none") 0 two_areas.


(** ** Vocabulary for further properties *)

Section Tables.
Context {F : Type} `{Numpy F}.


End Tables.

(** The computation does not end with [NameError]. *)
Definition no_name_error (o : outcome) (evs : list event) : Prop :=
  o <> Raised NameError.

(** [keeps I m]: the computation [m] preserves the property [I] of the
    state. *)
Definition keeps {A} (I : state -> Prop) (m : M A) : Prop :=
  forall st, I st -> I (m st).2.

(** The same surroundings with other external programs. *)
Definition with_spawn (w : World) (programs : list string -> FS -> option (Z * FS)) : World :=
  {| environ_PPUTILS := environ_PPUTILS w;
     getcwd := getcwd w;
     version_info := version_info w;
     argv := argv w;
     calcsize_P := calcsize_P w;
     os_name := os_name w;
     uname_machine := uname_machine w;
     spawn := programs;
     files := files w |}.

(** External programs that start when the given ones do and leave the same
    files, but return the status [g args rc] instead of [rc]. *)
Definition recode (g : list string -> Z -> Z)
    (programs : list string -> FS -> option (Z * FS)) : list string -> FS -> option (Z * FS) :=
  fun args m =>
    match programs args m with
    | Some (rc, m') => Some (g args rc, m')
    | None => None
    end.

(** An action without the status that a call returned. *)
Definition forget_rc (e : event) : event :=
  match e with
  | EvCall args (Some _) => EvCall args (Some 0%Z)
  | _ => e
  end.

(** Two states that differ at most in the statuses recorded in the trace. *)
Definition same_but_rc (st st' : state) : Prop :=
  fs st = fs st' /\ map forget_rc (trace st) = map forget_rc (trace st').

(** Two results that end the same way, with related values. *)
Definition res_rel {A B} (V : A -> B -> Prop) (r : res A) (r' : res B) : Prop :=
  match r, r' with
  | Ok a, Ok b => V a b
  | SysExit, SysExit => True
  | Raise e, Raise e' => e = e'
  | _, _ => False
  end.

(** [sim V m m']: from states that differ at most in the statuses
    recorded, [m] and [m'] end the same way, with values related by [V],
    in states that differ at most in the statuses recorded. *)
Definition sim {A B} (V : A -> B -> Prop) (m : M A) (m' : M B) : Prop :=
  forall st st', same_but_rc st st' ->
    res_rel V (m st).1 (m' st').1 /\ same_but_rc (m st).2 (m' st').2.




(** A Linux machine without the installation root and with the helper
    scripts not on the search path. *)
Definition off_path_unrooted : World :=
  with_spawn linux64 spawn_off_path.

(** * Properties *)

(** ** The monad *)

Lemma bind_ok {A B} (m : M A) (k : A -> M B) st a st' :
  m st = (Ok a, st') -> (x <- m;; k x) st = k a st'.
Proof. intros E. unfold bind. now rewrite E. Qed.



(** ** Strings and written files *)

Lemma append_cons (c : ascii) (s t : string) :
  String c s +:+ t = String c (s +:+ t).
Proof. reflexivity. Qed.

Lemma append_empty_r (s : string) : s +:+ "" = s.
Proof.
  induction s as [|c s IH]; [reflexivity|]. now rewrite append_cons, IH.
Qed.

Lemma append_assoc (s t u : string) : (s +:+ t) +:+ u = s +:+ (t +:+ u).
Proof.
  induction s as [|c s IH]; [reflexivity|]. now rewrite !append_cons, IH.
Qed.

Lemma concat_cons (h : string) (t : list string) :
  String.concat "" (h :: t) = h +:+ String.concat "" t.
Proof.
  destruct t; [|reflexivity].
  change (h = h +:+ ""). now rewrite append_empty_r.
Qed.

Lemma concat_app (p q : list string) :
  String.concat "" (p ++ q) = String.concat "" p +:+ String.concat "" q.
Proof.
  induction p as [|h p IH]; [reflexivity|].
  rewrite <- app_comm_cons, !concat_cons, IH. now rewrite append_assoc.
Qed.

Lemma append_text_twice file t1 t2 (m : FS) :
  append_text file t2 (append_text file t1 m) = append_text file (t1 +:+ t2) m.
Proof.
  unfold append_text. rewrite lookup_insert_eq, insert_insert_eq. simpl.
  now rewrite append_assoc.
Qed.

Lemma written_written file p q st :
  written file q (written file p st) = written file (p ++ q) st.
Proof.
  unfold written. simpl. f_equal.
  - now rewrite append_text_twice, concat_app.
  - now rewrite map_app, app_assoc.
Qed.

Lemma f_write_written file text st :
  f_write file text st = (Ok tt, written file [text] st).
Proof. reflexivity. Qed.

Lemma open_append_written file st :
  open_append file st = (Ok tt, written file [] st).
Proof.
  unfold open_append, written, append_text. simpl.
  now rewrite append_empty_r, app_nil_r.
Qed.


(** ** The area constraints *)

Section AreaBlock.
Context {F : Type} `{Numpy F}.
Implicit Types (x y area : F) (rows : list (F * F * F)) (st : state).

Lemma write_single_vec x y area st :
  write_single (Vec [x; y; area]) st
  = (Ok tt, written "mesh.poly" [Spec.region_record 1 (x, y, area)] st).
Proof. reflexivity. Qed.

Lemma write_indexed_mat (xs ys zs : list F) i x y area st :
  xs !! i = Some x -> ys !! i = Some y -> zs !! i = Some area ->
  write_indexed (Mat [xs; ys; zs]) i st
  = (Ok tt, written "mesh.poly" [Spec.region_record (S i) (x, y, area)] st).
Proof.
  intros Hx Hy Hz. unfold write_indexed, bind, lift, getitem2.
  change ([xs; ys; zs] !! 0) with (Some xs).
  change ([xs; ys; zs] !! 1) with (Some ys).
  change ([xs; ys; zs] !! 2) with (Some zs).
  cbv beta iota. rewrite Hx, Hy, Hz, Nat.add_1_r. reflexivity.
Qed.

(** The loop of the general branch, started at any index on a file that
    is open: the rows that remain are written with the IDs that continue
    the sequence. *)
Lemma for_range_records (before rest : list (F * F * F)) pieces st :
  for_range (seq (length before) (length rest))
    (write_indexed (columns (before ++ rest))) (written "mesh.poly" pieces st)
  = (Ok tt, written "mesh.poly"
              (pieces ++ Spec.region_records (S (length before)) rest) st).
Proof.
  revert before pieces. induction rest as [|[[x y] area] rest IH]; intros before pieces.
  - simpl. now rewrite app_nil_r.
  - change (seq (length before) (length ((x, y, area) :: rest)))
      with (length before :: seq (S (length before)) (length rest)).
    change (for_range (?i :: ?l) ?body) with (body i;; for_range l body).
    unfold columns at 1.
    erewrite bind_ok;
      [| apply write_indexed_mat with (x := x) (y := y) (area := area);
         rewrite list_lookup_fmap, list_lookup_middle by reflexivity; reflexivity ].
    rewrite written_written.
    replace (before ++ (x, y, area) :: rest) with ((before ++ [(x, y, area)]) ++ rest)
      by now rewrite <- app_assoc.
    replace (S (length before)) with (length (before ++ [(x, y, area)]))
      by (rewrite length_app; simpl; lia).
    rewrite IH. rewrite <- app_assoc. reflexivity.
Qed.

Lemma column_fields rows :
  column 0 (map row_fields rows) = map (fun r => r.1.1) rows /\
  column 1 (map row_fields rows) = map (fun r => r.1.2) rows /\
  column 2 (map row_fields rows) = map (fun r => r.2) rows.
Proof.
  unfold column. induction rows as [|[[x y] area] rows (IH0 & IH1 & IH2)]; [easy|].
  cbn. now rewrite IH0, IH1, IH2.
Qed.

Lemma to_ndarray_rows r1 r2 rows :
  to_ndarray (map row_fields (r1 :: r2 :: rows)) = columns (r1 :: r2 :: rows).
Proof.
  destruct (column_fields (r1 :: r2 :: rows)) as (E0 & E1 & E2).
  unfold columns. rewrite <- E0, <- E1, <- E2.
  destruct r1 as [[x y] area]. reflexivity.
Qed.

(** Lines 138-151 on the array and the count of a listing. *)
Lemma append_areas_listing rows st :
  append_areas (to_ndarray (map row_fields rows)) (length rows) st
  = (Ok tt, written "mesh.poly" (nl :: Spec.region_pieces rows) st).
Proof.
  unfold append_areas.
  erewrite bind_ok by apply open_append_written.
  erewrite bind_ok by apply f_write_written.
  erewrite bind_ok by apply f_write_written.
  rewrite !written_written. change ([] ++ [nl] ++ ?l) with (nl :: l).
  destruct rows as [|[[x y] area] [|r2 rows]].
  - reflexivity.
  - change (length [(x, y, area)] =? 1)%nat with true. cbv iota.
    change (to_ndarray (map row_fields [(x, y, area)])) with (Vec [x; y; area]).
    rewrite write_single_vec, written_written. reflexivity.
  - change (length ((x, y, area) :: r2 :: rows) =? 1)%nat with false. cbv iota.
    rewrite to_ndarray_rows. unfold write_multi.
    rewrite (for_range_records [] ((x, y, area) :: r2 :: rows)).
    reflexivity.
Qed.


End AreaBlock.

(** ** The Triangle binary *)

Lemma engine_call_trace w bin st :
  exists rc,
    trace ((subprocess_call w [bin; "-Dqa"; "mesh.poly"];; ret tt) st).2
    = trace st ++ [EvCall [bin; "-Dqa"; "mesh.poly"] rc].
Proof.
  unfold bind, subprocess_call.
  destruct (spawn w _ (fs st)) as [[rc fs']|]; simpl; eauto.
Qed.

Lemma run_triangle_posix w rel st :
  os_name w = "posix" -> In (uname_machine w, rel) posix_variants ->
  run_triangle w st
  = (subprocess_call w [pputils_path w +:+ rel; "-Dqa"; "mesh.poly"];; ret tt) st.
Proof.
  intros Hos Hcpu. unfold run_triangle. rewrite Hos.
  destruct Hcpu as [E|[E|[E|[]]]]; inversion E as [[Hm Hr]]; reflexivity.
Qed.

Lemma run_triangle_nt w st :
  os_name w = "nt" ->
  run_triangle w st = (subprocess_call w [nt_binary; "-Dqa"; "mesh.poly"];; ret tt) st.
Proof. intros Hos. unfold run_triangle. now rewrite Hos. Qed.

Lemma run_triangle_unknown_cpu w st :
  os_name w = "posix" -> ~ known_cpu (uname_machine w) ->
  run_triangle w st = (Ok tt, st).
Proof.
  intros Hos Hcpu. unfold run_triangle. rewrite Hos.
  change ("posix" =? "posix")%string with true. cbv iota zeta.
  destruct (String.eqb_spec (uname_machine w) "i686") as [E|_];
    [exfalso; apply Hcpu; rewrite E; unfold known_cpu, posix_variants; simpl; tauto|].
  destruct (String.eqb_spec (uname_machine w) "x86_64") as [E|_];
    [exfalso; apply Hcpu; rewrite E; unfold known_cpu, posix_variants; simpl; tauto|].
  destruct (String.eqb_spec (uname_machine w) "armv7l") as [E|_];
    [exfalso; apply Hcpu; rewrite E; unfold known_cpu, posix_variants; simpl; tauto|].
  reflexivity.
Qed.

Lemma run_triangle_unknown_os w st :
  os_name w <> "posix" -> os_name w <> "nt" ->
  run_triangle w st
  = (SysExit, log (EvPrint "Exiting!") (log (EvPrint "OS not supported!") st)).
Proof.
  intros H1 H2. unfold run_triangle.
  apply String.eqb_neq in H1, H2. now rewrite H1, H2.
Qed.


Section AreaClaims.
Context {F : Type} `{Numpy F}.



(** C2.  One area row goes through the special branch of line 143, which
    writes the record with the ID 1; this is the record that the general
    branch writes for the same listing taken as columns of length one,
    while on the array that [np.loadtxt] returns for one row the general
    branch raises [IndexError].  For a one-row and for a two-row listing
    the block appended is the count followed by the records with the IDs
    1 and 1, 2. *)
Theorem single_row_branch_agrees_with_general
    (x y area x' y' area' : F) (st : state) :
  let one := [(x, y, area)] in
  let two := [(x, y, area); (x', y', area')] in
  to_ndarray (map row_fields one) = Vec [x; y; area] /\
  write_single (Vec [x; y; area]) st
    = (Ok tt, written "mesh.poly" [Spec.region_record 1 (x, y, area)] st) /\
  write_multi (Mat [[x]; [y]; [area]]) 1 st = write_single (Vec [x; y; area]) st /\
  write_multi (Vec [x; y; area]) 1 st = (Raise IndexError, st) /\
  append_areas (to_ndarray (map row_fields one)) (length one) st
    = (Ok tt, written "mesh.poly"
                [nl; str_int 1 +:+ nl; Spec.region_record 1 (x, y, area)] st) /\
  append_areas (to_ndarray (map row_fields two)) (length two) st
    = (Ok tt, written "mesh.poly"
                [nl; str_int 2 +:+ nl; Spec.region_record 1 (x, y, area);
                 Spec.region_record 2 (x', y', area')] st).
Proof.
  intros one two.
  split; [reflexivity|].
  split; [apply write_single_vec|].
  split; [reflexivity|].
  split; [reflexivity|].
  split; [apply (append_areas_listing one) | apply (append_areas_listing two)].
Qed.
End AreaClaims.

(** ** Actions added to the trace *)

Lemma emits_weaken {A} (m : M A) (P Q : outcome -> list event -> Prop) :
  emits m P -> (forall o evs, P o evs -> Q o evs) -> emits m Q.
Proof. intros Hm HPQ st. destruct (Hm st) as (evs & E & HP). eauto. Qed.

Lemma emits_bind {A B} (m : M A) (k : A -> M B) (P Q R : outcome -> list event -> Prop) :
  emits m P -> (forall a, emits (k a) Q) ->
  (forall evs1 o evs2, P Done evs1 -> Q o evs2 -> R o (evs1 ++ evs2)) ->
  (forall o evs, o <> Done -> P o evs -> R o evs) ->
  emits (x <- m;; k x) R.
Proof.
  intros Hm Hk Hseq Hstop st. destruct (Hm st) as (evs1 & E1 & HP).
  unfold bind. destruct (m st) as [[a| |e] st1]; simpl in *.
  - destruct (Hk a st1) as (evs2 & E2 & HQ). exists (evs1 ++ evs2). split.
    + now rewrite E2, E1, app_assoc.
    + now apply Hseq.
  - exists evs1. split; [exact E1|]. now apply Hstop.
  - exists evs1. split; [exact E1|]. now apply Hstop.
Qed.

Lemma emits_seq {A B} (m : M A) (k : A -> M B) (P : outcome -> list event -> Prop) :
  stable P -> emits m P -> (forall a, emits (k a) P) -> emits (x <- m;; k x) P.
Proof.
  intros HP Hm Hk. apply emits_bind with (P := P) (Q := P); auto.
  apply (stable_app _ HP).
Qed.

Lemma emits_ret {A} (a : A) (P : outcome -> list event -> Prop) :
  P Done [] -> emits (ret a) P.
Proof. intros HP st. exists []. split; [now rewrite app_nil_r | exact HP]. Qed.

Lemma emits_raise {A} e (P : outcome -> list event -> Prop) :
  P (Raised e) [] -> emits (@raise A e) P.
Proof. intros HP st. exists []. split; [now rewrite app_nil_r | exact HP]. Qed.

Lemma emits_lift {A} (r : res A) (P : outcome -> list event -> Prop) :
  P (outcome_of r) [] -> emits (lift r) P.
Proof. intros HP st. exists []. split; [now rewrite app_nil_r | exact HP]. Qed.

Lemma emits_print text (P : outcome -> list event -> Prop) :
  P Done [EvPrint text] -> emits (print text) P.
Proof. intros HP st. exists [EvPrint text]. split; [reflexivity | exact HP]. Qed.

Lemma emits_open_append file (P : outcome -> list event -> Prop) :
  P Done [] -> emits (open_append file) P.
Proof. intros HP st. exists []. split; [simpl; now rewrite app_nil_r | exact HP]. Qed.

Lemma emits_f_write file text (P : outcome -> list event -> Prop) :
  P Done [EvWrite file text] -> emits (f_write file text) P.
Proof. intros HP st. exists [EvWrite file text]. split; [reflexivity | exact HP]. Qed.

Lemma emits_read_file file (P : outcome -> list event -> Prop) :
  P Done [] -> P (Raised OSError) [] -> emits (read_file file) P.
Proof.
  intros Hok Hraise st. unfold read_file.
  destruct (fs st !! file); simpl; exists []; now rewrite app_nil_r.
Qed.

Lemma emits_for_range indices body (P : outcome -> list event -> Prop) :
  stable P -> (forall i, emits (body i) P) -> emits (for_range indices body) P.
Proof.
  intros HP Hbody. induction indices as [|i rest IH]; simpl.
  - apply emits_ret, (stable_nil _ HP).
  - apply emits_seq; auto.
Qed.

(** ** The actions of each stage *)

Lemma call_helper_actions w cmd : emits (call_helper w cmd) (helper_actions w cmd).
Proof.
  intros st. unfold call_helper, try_except, subprocess_call, helper_actions.
  destruct (spawn w cmd (fs st)) as [[rc fs1]|] eqn:E1; simpl.
  - exists [EvCall cmd (Some rc)]. eauto.
  - unfold bind, read_name. destruct (pystr w) as [py|] eqn:Epy; simpl.
    + destruct (spawn w (py :: cmd) _) as [[rc fs2]|]; simpl.
      * exists [EvCall cmd None; EvCall (py :: cmd) (Some rc)].
        rewrite <- app_assoc. split; [reflexivity|]. right. right.
        exists py. split; [reflexivity|]. left. exists rc. auto.
      * exists [EvCall cmd None; EvCall (py :: cmd) None].
        rewrite <- app_assoc. split; [reflexivity|]. right. right.
        exists py. split; [reflexivity|]. right. auto.
    + exists [EvCall cmd None]. split; [reflexivity|]. right. left. auto.
Qed.

(** A print followed by a helper-script invocation. *)
Lemma announced_helper_actions w text cmd :
  emits (print text;; call_helper w cmd;; ret tt)
        (fun o evs => exists calls, evs = EvPrint text :: calls /\ helper_actions w cmd o calls).
Proof.
  apply emits_bind with (P := fun o evs => o = Done /\ evs = [EvPrint text])
                        (Q := helper_actions w cmd).
  - apply emits_print. auto.
  - intros _. apply emits_bind with (P := helper_actions w cmd)
                                    (Q := fun o evs => o = Done /\ evs = []).
    + apply call_helper_actions.
    + intros _. apply emits_ret. auto.
    + intros evs1 o evs2 H1 [-> ->]. now rewrite app_nil_r.
    + auto.
  - intros evs1 o evs2 [_ ->] H2. eauto.
  - intros o evs Ho [-> _]. contradiction.
Qed.

Lemma known_cpu_dec cpu : {known_cpu cpu} + {~ known_cpu cpu}.
Proof. apply in_dec, string_dec. Qed.

Lemma engine_call_actions w bin st :
  engine_binary w bin ->
  let r := (subprocess_call w [bin; "-Dqa"; "mesh.poly"];; ret tt) st in
  exists evs, trace r.2 = trace st ++ evs /\ engine_actions w (outcome_of r.1) evs.
Proof.
  intros Hbin. unfold bind, subprocess_call, engine_actions.
  destruct (spawn w _ (fs st)) as [[rc fs']|]; simpl.
  - exists [EvCall [bin; "-Dqa"; "mesh.poly"] (Some rc)]. split; [reflexivity|].
    right. right. exists bin. split; [exact Hbin|]. left. exists rc. auto.
  - exists [EvCall [bin; "-Dqa"; "mesh.poly"] None]. split; [reflexivity|].
    right. right. exists bin. split; [exact Hbin|]. right. auto.
Qed.

Lemma engine_stage_actions w : emits (run_triangle w) (engine_actions w).
Proof.
  intros st.
  destruct (String.eqb_spec (os_name w) "posix") as [Hposix|Hposix].
  - destruct (known_cpu_dec (uname_machine w)) as [Hcpu|Hcpu].
    + apply in_map_iff in Hcpu as [[cpu rel] [E Hin]]. simpl in E. subst cpu.
      rewrite (run_triangle_posix w rel st Hposix Hin).
      apply engine_call_actions. right. eauto.
    + rewrite (run_triangle_unknown_cpu w st Hposix Hcpu). simpl.
      exists []. rewrite app_nil_r. unfold engine_actions.
      split; [reflexivity|]. left. repeat split; auto.
  - destruct (String.eqb_spec (os_name w) "nt") as [Hnt|Hnt].
    + rewrite (run_triangle_nt w st Hnt).
      apply engine_call_actions. left. auto.
    + rewrite (run_triangle_unknown_os w st Hposix Hnt). simpl.
      eexists. split; [rewrite <- app_assoc; reflexivity|].
      unfold engine_actions. right. left. repeat split; auto.
Qed.

Lemma writes_only_stable : stable writes_only.
Proof.
  split.
  - now exists [].
  - intros evs1 o evs2 [t1 ->] [t2 ->]. exists (t1 ++ t2). now rewrite map_app.
Qed.

Section AreaActions.
Context {F : Type} `{Numpy F}.

Lemma areas_stage_actions file : emits (areas_stage (F := F) file) writes_only.
Proof.
  assert (Hnil : forall o, writes_only o []) by (intros o; now exists []).
  assert (Hone : forall o text, writes_only o [EvWrite "mesh.poly" text])
    by (intros o text; now exists [text]).
  pose proof writes_only_stable as Hst.
  unfold areas_stage, np_loadtxt, count_lines, append_areas, write_single,
    write_multi, write_indexed.
  repeat first
    [ apply emits_seq; [exact Hst| |intros ?]
    | apply emits_read_file | apply emits_lift | apply emits_ret
    | apply emits_open_append | apply emits_f_write
    | apply emits_for_range; [exact Hst|intros ?]
    | match goal with |- emits (if ?b then _ else _) _ => destruct b end
    | apply Hnil | apply Hone ].
Qed.
End AreaActions.

Lemma cleanup_actions_ok : emits remove_temporary_files cleanup_actions.
Proof.
  intros st. unfold remove_temporary_files, bind, os_remove, cleanup_actions.
  destruct (fs st !! "mesh.poly") eqn:E1; simpl;
    [|exists []; rewrite app_nil_r; split; [reflexivity|]; exists 0; split; [reflexivity|right; split; [reflexivity|lia]]].
  destruct (delete "mesh.poly" (fs st) !! "mesh.1.poly") eqn:E2; simpl;
    [|eexists; split; [reflexivity|]; exists 1; split; [reflexivity|right; split; [reflexivity|lia]]].
  destruct (delete "mesh.1.poly" _ !! "mesh.1.node") eqn:E3; simpl;
    [|eexists; split; [rewrite <- app_assoc; reflexivity|]; exists 2;
      split; [reflexivity|right; split; [reflexivity|lia]]].
  destruct (delete "mesh.1.node" _ !! "mesh.1.ele") eqn:E4; simpl.
  - eexists; split; [rewrite <- !app_assoc; reflexivity|]. exists 4. auto.
  - eexists; split; [rewrite <- !app_assoc; reflexivity|]. exists 3.
    split; [reflexivity|right; split; [reflexivity|lia]].
Qed.

(** ** The command line *)

Lemma parse_args_ok w st :
  length (argv w) = 13 -> parse_args w st = (Ok (names_of (argv w)), st).
Proof. intros E. unfold parse_args. now rewrite E. Qed.





Section Pipeline.
Context {F : Type} `{Numpy F}.


(** C10.  The command line is read by position only: of a command line of
    13 tokens the script reads the tokens 2, 4, 6, 8, 10 and 12, as the
    names of the nodes, boundary, lines, holes, areas and output files;
    two command lines of 13 tokens that agree at these positions give the
    same run, whatever the other tokens are. *)
Theorem command_line_is_positional (w : World) (args1 args2 : list string) :
  length args1 = 13 -> length args2 = 13 ->
  (forall i, In i name_positions -> nth i args1 "" = nth i args2 "") ->
  (forall st, parse_args (with_argv w args1) st
              = (Ok {| nodes_file := nth 2 args1 ""; boundary_file := nth 4 args1 "";
                       lines_file := nth 6 args1 ""; holes_file := nth 8 args1 "";
                       areas_file := nth 10 args1 ""; output_file := nth 12 args1 "" |}, st)) /\
  run (F := F) (with_argv w args1) = run (F := F) (with_argv w args2).
Proof.
  intros L1 L2 Hsame. split.
  - intros st. now apply (parse_args_ok (with_argv w args1)).
  - unfold run, main.
    rewrite (bind_ok _ _ _ _ _ (parse_args_ok (with_argv w args1) _ L1)).
    rewrite (bind_ok _ _ _ _ _ (parse_args_ok (with_argv w args2) _ L2)).
    assert (E : names_of args1 = names_of args2).
    { unfold names_of. rewrite !Hsame by (unfold name_positions; simpl; tauto).
      reflexivity. }
    change (argv (with_argv w args1)) with args1.
    change (argv (with_argv w args2)) with args2.
    rewrite E. reflexivity.
Qed.
End Pipeline.

(** ** The engine stage and its neighbours *)

Lemma pputils_path_set w root : environ_PPUTILS w = Some root -> pputils_path w = root.
Proof. intros E. unfold pputils_path, module_names. now rewrite E. Qed.

Lemma pputils_path_unset w : environ_PPUTILS w = None -> pputils_path w = getcwd w.
Proof. intros E. unfold pputils_path, module_names. now rewrite E. Qed.

Lemma pystr_unbound w root : environ_PPUTILS w = Some root -> pystr w = None.
Proof. intros E. unfold pystr, module_names. now rewrite E. Qed.

(** C8 (as amended).  The installation root is the value of the environment
    variable [PPUTILS] when it is set and the current working directory
    when it is not.  For each of the three POSIX variants the binary called
    is the root followed by a fixed relative path; on Windows ([nt]) the
    binary called is the fixed path [.\triangle\bin\triangle_32.exe],
    relative to the current working directory, whatever the root is. *)
Theorem binary_paths_from_installation_root (w : World) (st : state) :
  (forall root, environ_PPUTILS w = Some root -> pputils_path w = root) /\
  (environ_PPUTILS w = None -> pputils_path w = getcwd w) /\
  (forall rel, os_name w = "posix" -> In (uname_machine w, rel) posix_variants ->
     exists rc, trace (run_triangle w st).2
                = trace st ++ [EvCall [pputils_path w +:+ rel; "-Dqa"; "mesh.poly"] rc]) /\
  (os_name w = "nt" ->
     exists rc, trace (run_triangle w st).2
                = trace st ++ [EvCall [nt_binary; "-Dqa"; "mesh.poly"] rc]).
Proof.
  split; [apply pputils_path_set|]. split; [apply pputils_path_unset|]. split.
  - intros rel Hposix Hin. rewrite (run_triangle_posix w rel st Hposix Hin).
    apply engine_call_trace.
  - intros Hnt. rewrite (run_triangle_nt w st Hnt). apply engine_call_trace.
Qed.

(** C4, on the code: on a POSIX system whose processor type is none of
    [i686], [x86_64] and [armv7l] the engine stage does nothing at all, it
    neither calls a binary nor stops the run, and the conversion stage is
    what comes next; an operating system that is neither [posix] nor [nt]
    does stop the run. *)
Theorem unknown_posix_cpu_skips_engine (w : World) (a : files_given) (st : state) :
  (os_name w = "posix" -> ~ known_cpu (uname_machine w) ->
   run_triangle w st = (Ok tt, st) /\
   (run_triangle w;; triangle2adcirc w a) st = triangle2adcirc w a st) /\
  (os_name w <> "posix" -> os_name w <> "nt" ->
   run_triangle w st
   = (SysExit, log (EvPrint "Exiting!") (log (EvPrint "OS not supported!") st))).
Proof.
  split.
  - intros Hposix Hcpu.
    pose proof (run_triangle_unknown_cpu w st Hposix Hcpu) as E.
    split; [exact E|]. now rewrite (bind_ok _ _ _ _ _ E).
  - apply run_triangle_unknown_os.
Qed.


Section AreasNone.
Context {F : Type} `{Numpy F}.

(** C5, on the code: when the areas listing is given as [none] and no
    file of that name exists, reading the areas file raises; the run ends
    there with an uncaught exception, before the area block is written and
    before the engine is called. *)
Theorem areas_none_raises (w : World) (st : state) :
  length (argv w) = 13 ->
  nth 10 (argv w) "" = "none" ->
  (a <- parse_args w;; gis2triangle w a) (initial w) = (Ok tt, st) ->
  fs st !! "none" = None ->
  run (F := F) w = (Raise OSError, st).
Proof.
  intros Hlen Hnone Hreach Hmissing.
  rewrite (bind_ok _ _ _ _ _ (parse_args_ok w _ Hlen)) in Hreach.
  unfold run, main. rewrite (bind_ok _ _ _ _ _ (parse_args_ok w _ Hlen)).
  rewrite (bind_ok _ _ _ _ _ Hreach).
  change (areas_file (names_of (argv w))) with (nth 10 (argv w) "").
  rewrite Hnone.
  unfold areas_stage, np_loadtxt, read_file, bind. now rewrite Hmissing.
Qed.
End AreasNone.

(** ** The fallback of the helper-script invocations *)

Lemma length_append (s t : string) :
  String.length (s +:+ t) = String.length s + String.length t.
Proof.
  induction s as [|c s IH]; [reflexivity|].
  rewrite append_cons. simpl. now rewrite IH.
Qed.

Lemma engine_binary_not_helper w bin : engine_binary w bin -> ~ In bin helper_scripts.
Proof.
  intros [[_ ->]|[_ (rel & Hin & ->)]] Hhelper.
  - simpl in Hhelper. intuition discriminate.
  - assert (Hlong : 25 <= String.length (pputils_path w +:+ rel)).
    { rewrite length_append.
      destruct Hin as [E|[E|[E|[]]]]; inversion E; simpl; lia. }
    destruct Hhelper as [E|[E|[E|[]]]]; rewrite <- E in Hlong; simpl in Hlong; lia.
Qed.

Lemma fallback_fails_stable : stable fallback_fails.
Proof.
  split.
  - split; [constructor|]. intros Hex. inversion Hex.
  - intros evs1 o evs2 [Hno1 Hfail1] [Hno2 Hfail2]. split.
    + now apply Forall_app.
    + intros Hex. apply Exists_app in Hex as [Hex|Hex]; [|auto].
      specialize (Hfail1 Hex). discriminate.
Qed.

Lemma print_not_interpreter_call text : ~ interpreter_call (EvPrint text).
Proof. intros (py & script & rest & rc & E & _). discriminate. Qed.

Lemma print_not_failed_call text : ~ failed_direct_call (EvPrint text).
Proof. intros (script & rest & E & _). discriminate. Qed.

(** A helper-script invocation when the interpreter name is unbound. *)
Lemma helper_fallback_fails w text cmd :
  pystr w = None ->
  (forall rc, ~ interpreter_call (EvCall cmd rc)) ->
  emits (print text;; call_helper w cmd;; ret tt) fallback_fails.
Proof.
  intros Hpy Hcmd. eapply emits_weaken; [apply announced_helper_actions|].
  intros o evs (calls & -> & Hcalls). unfold fallback_fails.
  destruct Hcalls as [(rc & -> & ->)|[(_ & -> & ->)|(py & Epy & _)]].
  - split.
    + repeat constructor; [apply print_not_interpreter_call | apply Hcmd].
    + intros Hex. apply Exists_cons in Hex as [Hex|Hex];
        [now apply print_not_failed_call in Hex|].
      apply Exists_cons in Hex as [(script & rest & E & _)|Hex];
        [discriminate | inversion Hex].
  - split; [|reflexivity].
    repeat constructor; [apply print_not_interpreter_call | apply Hcmd].
  - rewrite Hpy in Epy. discriminate.
Qed.

Lemma engine_fallback_fails w : emits (run_triangle w) fallback_fails.
Proof.
  eapply emits_weaken; [apply engine_stage_actions|].
  assert (Hflags : forall bin rc, ~ interpreter_call (EvCall [bin; "-Dqa"; "mesh.poly"] rc)).
  { intros bin rc (py & script & rest & rc' & E & Hin). injection E as -> <- <- <-.
    simpl in Hin. intuition discriminate. }
  intros o evs [(-> & -> & _)|[(-> & -> & _)|(bin & Hbin & [(rc & -> & ->)|(-> & ->)])]];
    unfold fallback_fails.
  - split; [constructor|]. intros Hex. inversion Hex.
  - split; [repeat constructor; apply print_not_interpreter_call|].
    intros Hex. repeat (apply Exists_cons in Hex as [Hex|Hex];
                        [now apply print_not_failed_call in Hex|]).
    inversion Hex.
  - split; [repeat constructor; apply Hflags|].
    intros Hex. apply Exists_cons in Hex as [(script & rest & E & _)|Hex];
      [discriminate | inversion Hex].
  - split; [repeat constructor; apply Hflags|]. intros Hex.
    apply Exists_cons in Hex as [(script & rest & E & Hin)|Hex]; [|inversion Hex].
    injection E as <- <-. now apply engine_binary_not_helper in Hbin.
Qed.

Lemma writes_fallback_fails o evs : writes_only o evs -> fallback_fails o evs.
Proof.
  intros [texts ->]. split.
  - apply List.Forall_forall. intros e Hin. apply in_map_iff in Hin as (t & <- & _).
    intros (py & script & rest & rc & E & _). discriminate.
  - intros Hex. apply List.Exists_exists in Hex as (e & Hin & (script & rest & E & _)).
    apply in_map_iff in Hin as (t & <- & _). discriminate.
Qed.

Lemma cleanup_fallback_fails o evs : cleanup_actions o evs -> fallback_fails o evs.
Proof.
  intros (k & -> & _). split.
  - apply List.Forall_forall. intros e Hin. apply in_map_iff in Hin as (t & <- & _).
    intros (py & script & rest & rc & E & _). discriminate.
  - intros Hex. apply List.Exists_exists in Hex as (e & Hin & (script & rest & E & _)).
    apply in_map_iff in Hin as (t & <- & _). discriminate.
Qed.

Lemma flag_not_helper (script flag : string) rest rc :
  ~ In flag helper_scripts -> ~ interpreter_call (EvCall (script :: flag :: rest) rc).
Proof.
  intros Hflag (py & script' & rest' & rc' & E & Hin). injection E as <- <- <- <-.
  contradiction.
Qed.

Section Fallback.
Context {F : Type} `{Numpy F}.

Lemma main_fallback_fails w root :
  environ_PPUTILS w = Some root -> emits (main (F := F) w) fallback_fails.
Proof.
  intros Hroot. pose proof (pystr_unbound w root Hroot) as Hpy.
  pose proof fallback_fails_stable as Hst.
  assert (Hn : ~ In "-n" helper_scripts) by (simpl; intuition discriminate).
  assert (Hi : ~ In "-i" helper_scripts) by (simpl; intuition discriminate).
  unfold main. apply emits_seq; [exact Hst| |intros a].
  { intros st. unfold parse_args. destruct (length (argv w) =? 13)%nat.
    - exists []. simpl. rewrite app_nil_r. split; [reflexivity|apply Hst].
    - eexists. split; [simpl; rewrite <- !app_assoc; reflexivity|]. simpl. split.
      + repeat constructor; apply print_not_interpreter_call.
      + intros Hex. repeat (apply Exists_cons in Hex as [Hex|Hex];
                            [now apply print_not_failed_call in Hex|]).
        inversion Hex. }
  apply emits_seq; [exact Hst| |intros _].
  { apply helper_fallback_fails; [exact Hpy|]. intros rc. now apply flag_not_helper. }
  apply emits_seq; [exact Hst| |intros _].
  { eapply emits_weaken; [apply areas_stage_actions|apply writes_fallback_fails]. }
  apply emits_seq; [exact Hst| |intros _].
  { apply engine_fallback_fails. }
  apply emits_seq; [exact Hst| |intros _].
  { apply helper_fallback_fails; [exact Hpy|]. intros rc. now apply flag_not_helper. }
  apply emits_seq; [exact Hst| |intros _].
  { eapply emits_weaken; [apply cleanup_actions_ok|apply cleanup_fallback_fails]. }
  apply helper_fallback_fails; [exact Hpy|]. intros rc. now apply flag_not_helper.
Qed.

(** C9.  The interpreter name [pystr] is bound only when the lookup of
    [PPUTILS] fails.  So in every run with [PPUTILS] set the name is
    unbound; a helper-script invocation whose direct call raises then
    ends with [NameError], its only action being the direct call; no
    helper script is ever called through an interpreter; and a run in
    which a direct call of a helper script raised ends with an uncaught
    [NameError]. *)
Theorem fallback_raises_name_error_when_root_is_set (w : World) (root : string) :
  environ_PPUTILS w = Some root ->
  pystr w = None /\
  (forall cmd st, spawn w cmd (fs st) = None ->
     call_helper w cmd st = (Raise NameError, log (EvCall cmd None) st)) /\
  Forall (fun e => ~ interpreter_call e) (trace (run (F := F) w).2) /\
  (Exists failed_direct_call (trace (run (F := F) w).2) ->
   (run (F := F) w).1 = Raise NameError).
Proof.
  intros Hroot. pose proof (pystr_unbound w root Hroot) as Hpy.
  split; [exact Hpy|]. split.
  - intros cmd st Hspawn.
    unfold call_helper, try_except, subprocess_call. rewrite Hspawn, Hpy. reflexivity.
  - destruct (main_fallback_fails w root Hroot (initial w)) as (evs & E & Hno & Hfail).
    fold (run (F := F) w) in E, Hfail. simpl in E. rewrite E.
    split; [exact Hno|]. intros Hex. specialize (Hfail Hex).
    destruct (run w).1 as [[]| |e]; simpl in Hfail; congruence.
Qed.
End Fallback.

(** ** The removal of the temporary files *)






Section Cleanup.
Context {F : Type} `{Numpy F}.



End Cleanup.

(** ** The exit status *)

Section ExitStatus.
Context {F : Type} `{Numpy F}.



End ExitStatus.

(** ** The script on concrete surroundings *)




Lemma arm64_skips_engine :
  run_triangle linux_arm64 poly_written = (Ok tt, poly_written) /\
  run_triangle unknown_os poly_written
  = (SysExit, log (EvPrint "Exiting!") (log (EvPrint "OS not supported!") poly_written)).
Proof.
  split.
  - apply (unknown_posix_cpu_skips_engine linux_arm64 (names_of (argv linux_arm64))
             poly_written).
    + reflexivity.
    + unfold known_cpu. simpl. intuition discriminate.
  - apply (unknown_posix_cpu_skips_engine unknown_os (names_of (argv unknown_os))
             poly_written); discriminate.
Defined.

Lemma areas_none_run :
  run (F := string) linux64_areas_none
  = (Raise OSError,
     ((a <- parse_args linux64_areas_none;; gis2triangle linux64_areas_none a)
        (initial linux64_areas_none)).2).
Proof.
  apply (areas_none_raises linux64_areas_none); reflexivity.
Defined.



(** On Windows with the installation root set, the binary called is not
    under the root. *)
Lemma windows_binary_not_under_root :
  let w := windows_rooted in
  environ_PPUTILS w = Some "/opt/pputils" /\
  ~ (forall bin rc,
       In (EvCall [bin; "-Dqa"; "mesh.poly"] rc) (trace (run_triangle w (initial w)).2) ->
       exists rel, bin = pputils_path w +:+ rel).
Proof.
  intros w. split; [reflexivity|]. intros Hclaim.
  destruct (Hclaim nt_binary (Some 0%Z)) as [rel E].
  - vm_compute. tauto.
  - vm_compute in E. discriminate E.
Qed.

Lemma linux_binary_under_root :
  pputils_path linux64_rooted = "/opt/pputils" /\
  exists rc,
    trace (run_triangle linux64_rooted poly_written).2
    = trace poly_written
        ++ [EvCall [pputils_path linux64_rooted +:+ "/triangle/bin/triangle_64";
                    "-Dqa"; "mesh.poly"] rc].
Proof.
  destruct (binary_paths_from_installation_root linux64_rooted poly_written)
    as (Hset & _ & Hposix & _).
  split.
  - apply Hset. reflexivity.
  - apply Hposix; [reflexivity|]. vm_compute. tauto.
Defined.

Lemma off_path_run_raises_name_error :
  (run (F := string) off_path_world).1 = Raise NameError.
Proof.
  destruct (fallback_raises_name_error_when_root_is_set (F := string)
              off_path_world "/opt/pputils") as (_ & _ & _ & Hraises).
  - reflexivity.
  - apply Hraises. vm_compute. apply Exists_cons. right. apply Exists_cons. left.
    eexists _, _. split; [reflexivity|]. simpl. tauto.
Defined.

Lemma relabelled_command_line_same_run :
  run (F := string) (with_argv linux64 (demo_argv "areas.csv"))
  = run (F := string) (with_argv linux64 relabelled_argv).
Proof.
  apply (command_line_is_positional linux64 (demo_argv "areas.csv") relabelled_argv).
  - reflexivity.
  - reflexivity.
  - intros i Hi. simpl in Hi.
    destruct Hi as [<-|[<-|[<-|[<-|[<-|[<-|[]]]]]]]; reflexivity.
Defined.

(** * Further properties *)

(** ** Areas files that are not plain three-column listings *)

Section AreaTables.
Context {F : Type} `{Numpy F}.
Implicit Types (x y area : F) (rows : list (F * F * F)) (table : list (list F)) (st : state).












End AreaTables.

(** ** The removal of the temporary files, file by file *)

(** Lines 186-189 when the first [k] temporary files exist and the next
    one does not. *)
Lemma remove_existing_prefix (st : state) (k : nat) :
  k <= 4 ->
  (forall f, In f (take k temporary_files) -> is_Some (fs st !! f)) ->
  (forall f, temporary_files !! k = Some f -> fs st !! f = None) ->
  remove_temporary_files st
  = (if Nat.eqb k 4 then Ok tt else Raise OSError,
     {| fs := foldl (fun m f => delete f m) (fs st) (take k temporary_files);
        trace := trace st ++ map EvRemove (take k temporary_files) |}).
Proof.
  intros Hk Hthere Hmissing.
  assert (Hget : forall i f, i < k -> temporary_files !! i = Some f ->
                             exists c, fs st !! f = Some c).
  { intros i f Hi Hf. apply Hthere, list_elem_of_In.
    apply list_elem_of_lookup. exists i. rewrite lookup_take_lt by exact Hi. exact Hf. }
  unfold remove_temporary_files, bind, os_remove.
  destruct k as [|k].
  { rewrite (Hmissing "mesh.poly" eq_refl). destruct st as [m t]. simpl.
    now rewrite app_nil_r. }
  destruct (Hget 0 "mesh.poly") as [c0 E0]; [lia|reflexivity|]. rewrite E0. simpl.
  destruct k as [|k].
  { rewrite lookup_delete_ne, (Hmissing "mesh.1.poly" eq_refl) by done.
    reflexivity. }
  destruct (Hget 1 "mesh.1.poly") as [c1 E1]; [lia|reflexivity|].
  rewrite lookup_delete_ne, E1 by done. simpl.
  destruct k as [|k].
  { rewrite !lookup_delete_ne, (Hmissing "mesh.1.node" eq_refl) by done.
    simpl. now rewrite <- app_assoc. }
  destruct (Hget 2 "mesh.1.node") as [c2 E2]; [lia|reflexivity|].
  rewrite !lookup_delete_ne, E2 by done. simpl.
  destruct k as [|k].
  { rewrite !lookup_delete_ne, (Hmissing "mesh.1.ele" eq_refl) by done.
    simpl. now rewrite <- !app_assoc. }
  destruct (Hget 3 "mesh.1.ele") as [c3 E3]; [lia|reflexivity|].
  rewrite !lookup_delete_ne, E3 by done. simpl.
  destruct k as [|k]; [|lia]. simpl. now rewrite <- !app_assoc.
Qed.

(** X10.  The removal is not atomic.  When the first [k] temporary files
    exist and the next one does not, exactly these [k] files are removed,
    in order, and the stage ends with [OSError] at the missing one; the
    files after it are left.  The stage ends normally only when all four
    files exist. *)
Theorem cleanup_stops_at_first_missing_file (st : state) (k : nat) :
  k <= 4 ->
  (forall f, In f (take k temporary_files) -> is_Some (fs st !! f)) ->
  (forall f, temporary_files !! k = Some f -> fs st !! f = None) ->
  remove_temporary_files st
  = (if Nat.eqb k 4 then Ok tt else Raise OSError,
     {| fs := foldl (fun m f => delete f m) (fs st) (take k temporary_files);
        trace := trace st ++ map EvRemove (take k temporary_files) |}).
Proof. apply remove_existing_prefix. Qed.

(** ** The name of the WKT file *)

Lemma before_last_absent (c : ascii) (s : string) :
  ~ In c (list_ascii_of_string s) -> before_last c s = None.
Proof.
  induction s as [|a s IH]; [reflexivity|]. simpl. intros Hnot.
  rewrite IH by tauto.
  destruct (Ascii.eqb_spec a c) as [->|_]; [tauto|reflexivity].
Qed.

Lemma before_last_split (c : ascii) (stem ext : string) :
  ~ In c (list_ascii_of_string ext) ->
  before_last c (stem +:+ String c ext) = Some stem.
Proof.
  intros Hnot. induction stem as [|a stem IH].
  - change ("" +:+ String c ext) with (String c ext). simpl.
    now rewrite (before_last_absent c ext Hnot), Ascii.eqb_refl.
  - rewrite append_cons. simpl. now rewrite IH.
Qed.

Lemma before_last_found (c : ascii) (s h : string) :
  before_last c s = Some h -> exists t, s = h +:+ String c t.
Proof.
  revert h. induction s as [|a s IH]; intros h; [discriminate|]. simpl.
  destruct (before_last c s) as [h'|].
  - intros E. injection E as <-. destruct (IH h' eq_refl) as [t ->].
    exists t. now rewrite append_cons.
  - destruct (Ascii.eqb_spec a c) as [->|_]; [|discriminate].
    intros E. injection E as <-. now exists s.
Qed.

(** X11.  Line 192: the name of the WKT file is the output name cut at its
    last dot, followed by [WKT.csv]; an output name without a dot is kept
    whole.  The WKT file is never the output file itself. *)
Theorem wkt_file_name (a : files_given) :
  (forall stem ext,
     output_file a = stem +:+ "." +:+ ext ->
     ~ In "."%char (list_ascii_of_string ext) ->
     wkt_file a = stem +:+ "WKT.csv") /\
  (~ In "."%char (list_ascii_of_string (output_file a)) ->
   wkt_file a = output_file a +:+ "WKT.csv") /\
  wkt_file a <> output_file a.
Proof.
  unfold wkt_file, rsplit_dot_head. split; [|split].
  - intros stem ext -> Hext.
    change (stem +:+ "." +:+ ext) with (stem +:+ String "." ext).
    now rewrite before_last_split.
  - intros Hout. now rewrite before_last_absent.
  - destruct (before_last "." (output_file a)) as [h|] eqn:E; simpl.
    + destruct (before_last_found _ _ _ E) as [t ->]. intros Heq.
      apply String.app_inj in Heq. discriminate Heq.
    + intros Heq. apply (f_equal String.length) in Heq.
      rewrite length_append in Heq. simpl in Heq. lia.
Qed.

(** ** The interpreter of the fallback *)

(** X1.  Lines 85-97, when [PPUTILS] is not set: the interpreter name is
    chosen by comparing the version tuple with (3, 0) and (2, 7).  A
    version tuple is longer than these pairs, so 3.0.x and 2.7.x are
    above them: the name is [python3] from 3.0 on, [python] from 2.7 up to
    3.0, and is left unbound below 2.7. *)
Theorem interpreter_name_by_version (w : World) (major minor micro : Z) :
  environ_PPUTILS w = None ->
  version_info w = [major; minor; micro] ->
  (0 <= minor)%Z ->
  ((3 <= major)%Z -> pystr w = Some "python3") /\
  (major = 2%Z -> (7 <= minor)%Z -> pystr w = Some "python") /\
  ((major < 2)%Z \/ (major = 2%Z /\ (minor < 7)%Z) -> pystr w = None).
Proof.
  intros Henv Hver Hminor. unfold pystr, module_names. rewrite Henv, Hver. simpl.
  destruct (Z.eqb_spec major 3), (Z.eqb_spec minor 0), (Z.eqb_spec major 2),
    (Z.eqb_spec minor 7), (Z.gtb_spec major 3), (Z.gtb_spec minor 0),
    (Z.gtb_spec major 2), (Z.gtb_spec minor 7);
    repeat split; intros; try reflexivity; lia.
Qed.

Lemma no_name_error_stable : stable no_name_error.
Proof. split; [discriminate|]. intros evs1 o evs2 _ Ho. exact Ho. Qed.

Section Retry.
Context {F : Type} `{Numpy F}.

Lemma getitem1_no_name_error (a : ndarray F) k :
  outcome_of (getitem1 a k) <> Raised NameError.
Proof.
  destruct a as [x|xs|m]; simpl; [discriminate| |].
  - destruct (xs !! k); discriminate.
  - destruct (m !! k); discriminate.
Qed.

Lemma getitem2_no_name_error (a : ndarray F) k i :
  outcome_of (getitem2 a k i) <> Raised NameError.
Proof.
  destruct a as [x|xs|m]; simpl; [discriminate..|].
  destruct (m !! k) as [r|]; [destruct (r !! i)|]; discriminate.
Qed.

Lemma loadtxt_no_name_error content :
  outcome_of (loadtxt_text (F := F) content) <> Raised NameError.
Proof.
  unfold loadtxt_text. destruct (parse_rows _) as [rows|]; [|discriminate].
  destruct (same_columns rows); discriminate.
Qed.

Lemma areas_stage_no_name_error file : emits (areas_stage (F := F) file) no_name_error.
Proof.
  pose proof no_name_error_stable as Hst.
  assert (Hdone : forall evs, no_name_error Done evs) by (intros evs; discriminate).
  assert (Hos : forall evs, no_name_error (Raised OSError) evs) by (intros evs; discriminate).
  unfold areas_stage, np_loadtxt, count_lines, append_areas, write_single,
    write_multi, write_indexed.
  repeat first
    [ apply emits_seq; [exact Hst| |intros ?]
    | apply emits_read_file | apply emits_lift | apply emits_ret
    | apply emits_open_append | apply emits_f_write
    | apply emits_for_range; [exact Hst|intros ?]
    | match goal with |- emits (if ?b then _ else _) _ => destruct b end
    | apply Hdone | apply Hos
    | apply getitem1_no_name_error | apply getitem2_no_name_error
    | apply loadtxt_no_name_error ].
Qed.

Lemma helper_no_name_error w py text cmd :
  pystr w = Some py ->
  emits (print text;; call_helper w cmd;; ret tt) no_name_error.
Proof.
  intros Hpy. eapply emits_weaken; [apply announced_helper_actions|].
  intros o evs (calls & _ & [(rc & -> & _)|[(Hnone & _)|(py' & _ & [(rc & -> & _)|(-> & _)])]]);
    try discriminate.
  rewrite Hpy in Hnone. discriminate.
Qed.

Lemma main_no_name_error w py :
  pystr w = Some py -> emits (main (F := F) w) no_name_error.
Proof.
  intros Hpy. pose proof no_name_error_stable as Hst.
  unfold main. apply emits_seq; [exact Hst| |intros a].
  { intros st. unfold parse_args. destruct (length (argv w) =? 13)%nat.
    - exists []. simpl. rewrite app_nil_r. split; [reflexivity|discriminate].
    - eexists. split; [simpl; rewrite <- !app_assoc; reflexivity|discriminate]. }
  apply emits_seq; [exact Hst| |intros _].
  { now apply helper_no_name_error with (py := py). }
  apply emits_seq; [exact Hst| |intros _].
  { apply areas_stage_no_name_error. }
  apply emits_seq; [exact Hst| |intros _].
  { eapply emits_weaken; [apply engine_stage_actions|].
    intros o evs [(-> & _)|[(-> & _)|(bin & _ & [(rc & -> & _)|(-> & _)])]]; discriminate. }
  apply emits_seq; [exact Hst| |intros _].
  { now apply helper_no_name_error with (py := py). }
  apply emits_seq; [exact Hst| |intros _].
  { eapply emits_weaken; [apply cleanup_actions_ok|].
    intros o evs (k & _ & [(-> & _)|(-> & _)]); discriminate. }
  now apply helper_no_name_error with (py := py).
Qed.

(** X2.  The fallback of lines 118-125, 178-183 and 196-199 is taken only
    when the direct call of the helper script raises: a helper script that
    starts is never retried, whatever status it returns.  When the
    interpreter name is bound, a direct call that raises is followed by
    the call of the same command through the interpreter, whose outcome is
    the outcome of the invocation, and no run ends with [NameError]. *)
Theorem fallback_retries_through_interpreter (w : World) (py : string) :
  pystr w = Some py ->
  (forall cmd st rc m',
     spawn w cmd (fs st) = Some (rc, m') ->
     call_helper w cmd st = (Ok rc, called cmd rc m' st)) /\
  (forall cmd st,
     spawn w cmd (fs st) = None ->
     call_helper w cmd st = subprocess_call w (py :: cmd) (log (EvCall cmd None) st)) /\
  (run (F := F) w).1 <> Raise NameError.
Proof.
  intros Hpy. split; [|split].
  - intros cmd st rc m' Hspawn.
    unfold call_helper, try_except, subprocess_call. now rewrite Hspawn.
  - intros cmd st Hspawn.
    unfold call_helper, try_except, subprocess_call at 1. rewrite Hspawn.
    unfold bind, read_name. rewrite Hpy. simpl.
    destruct (subprocess_call w (py :: cmd) _) as [[rc| |e] st']; reflexivity.
  - destruct (main_no_name_error w py Hpy (initial w)) as (evs & _ & Hno).
    fold (run (F := F) w) in Hno. intros E. rewrite E in Hno. now apply Hno.
Qed.
End Retry.

(** ** What the script itself does to the file system *)

Lemma keeps_bind {A B} (I : state -> Prop) (m : M A) (k : A -> M B) :
  keeps I m -> (forall a, keeps I (k a)) -> keeps I (x <- m;; k x).
Proof.
  intros Hm Hk st HI. specialize (Hm st HI). unfold bind.
  destruct (m st) as [[a| |e] st1]; simpl in *; [now apply Hk|exact Hm..].
Qed.

Lemma keeps_try_except {A} (I : state -> Prop) (body handler : M A) :
  keeps I body -> keeps I handler -> keeps I (try_except body handler).
Proof.
  intros Hb Hh st HI. specialize (Hb st HI). unfold try_except.
  destruct (body st) as [[a| |e] st1]; simpl in *; [exact Hb|now apply Hh..].
Qed.

Lemma keeps_for_range (I : state -> Prop) indices body :
  (forall i, keeps I (body i)) -> keeps I (for_range indices body).
Proof.
  intros Hbody. induction indices as [|i rest IH]; [now intros st|].
  now apply keeps_bind.
Qed.

Section Frame.
Context {F : Type} `{Numpy F}.
Variables (w : World) (f : string) (v : option string).
Hypothesis f_not_temporary : ~ In f temporary_files.
Hypothesis programs_leave_f :
  forall args m rc m', spawn w args m = Some (rc, m') -> m' !! f = m !! f.

Let I (st : state) : Prop := fs st !! f = v.

Lemma keeps_print text : keeps I (print text).
Proof. now intros st. Qed.

Lemma keeps_subprocess_call args : keeps I (subprocess_call w args).
Proof.
  intros st HI. unfold subprocess_call.
  destruct (spawn w args (fs st)) as [[rc m']|] eqn:E; simpl; [|exact HI].
  unfold I. simpl. now rewrite (programs_leave_f _ _ _ _ E).
Qed.

Lemma keeps_call_helper cmd : keeps I (call_helper w cmd).
Proof.
  apply keeps_try_except; [apply keeps_subprocess_call|].
  apply keeps_bind; [|intros py; apply keeps_subprocess_call].
  intros st HI. unfold read_name. now destruct (pystr w).
Qed.

Lemma keeps_announced_helper text cmd :
  keeps I (print text;; call_helper w cmd;; ret tt).
Proof.
  apply keeps_bind; [apply keeps_print|intros _].
  apply keeps_bind; [apply keeps_call_helper|intros _]. now intros st.
Qed.

Lemma keeps_write_poly text : keeps I (f_write "mesh.poly" text).
Proof.
  intros st HI. unfold I. simpl. rewrite lookup_insert_ne; [exact HI|].
  intros <-. apply f_not_temporary. simpl. tauto.
Qed.

Lemma keeps_remove file : In file temporary_files -> keeps I (os_remove file).
Proof.
  intros Hfile st HI. unfold os_remove. destruct (fs st !! file); [|exact HI].
  unfold I. simpl. rewrite lookup_delete_ne; [exact HI|].
  intros <-. now apply f_not_temporary.
Qed.

Lemma keeps_areas_stage file : keeps I (areas_stage (F := F) file).
Proof.
  assert (Hread : forall file', keeps I (read_file file')).
  { intros file' st HI. unfold read_file. now destruct (fs st !! file'). }
  assert (Hlift : forall A (r : res A), keeps I (lift r)) by now intros A r st.
  assert (Hret : forall A (a : A), keeps I (ret a)) by now intros A a st.
  assert (Hopen : keeps I (open_append "mesh.poly")).
  { intros st HI. unfold I. simpl. rewrite lookup_insert_ne; [exact HI|].
    intros <-. apply f_not_temporary. simpl. tauto. }
  unfold areas_stage, np_loadtxt, count_lines, append_areas, write_single,
    write_multi, write_indexed.
  repeat first
    [ apply keeps_bind; [|intros ?]
    | apply Hread | apply Hlift | apply Hret | apply Hopen
    | apply keeps_write_poly
    | apply keeps_for_range; intros ?
    | match goal with |- keeps _ (if ?b then _ else _) => destruct b end ].
Qed.

Lemma keeps_run_triangle : keeps I (run_triangle w).
Proof.
  assert (Hengine : forall bin,
             keeps I (subprocess_call w [bin; "-Dqa"; "mesh.poly"];; ret tt)).
  { intros bin. apply keeps_bind; [apply keeps_subprocess_call|]. now intros _ st. }
  unfold run_triangle.
  repeat match goal with |- keeps _ (if ?b then _ else _) => destruct b end;
    try apply Hengine.
  - now intros st.
  - apply keeps_bind; [apply keeps_print|intros _].
    apply keeps_bind; [apply keeps_print|intros _]. now intros st.
Qed.

Lemma keeps_main : keeps I (main (F := F) w).
Proof.
  unfold main. apply keeps_bind; [|intros a].
  { intros st HI. unfold parse_args. now destruct (length (argv w) =? 13)%nat. }
  apply keeps_bind; [apply keeps_announced_helper|intros _].
  apply keeps_bind; [apply keeps_areas_stage|intros _].
  apply keeps_bind; [apply keeps_run_triangle|intros _].
  apply keeps_bind; [apply keeps_announced_helper|intros _].
  apply keeps_bind; [|intros _; apply keeps_announced_helper].
  unfold remove_temporary_files.
  repeat (apply keeps_bind; [|intros _]); apply keeps_remove; simpl; tauto.
Qed.
End Frame.

Section FrameClaim.
Context {F : Type} `{Numpy F}.

(** X4.  Of the files, the script itself touches only [mesh.poly],
    [mesh.1.poly], [mesh.1.node] and [mesh.1.ele]: a file with another
    name that the external programs leave alone is, at the end of every
    run, what it was at the start (as absent, or with the same content). *)
Theorem other_files_are_left_alone (w : World) (f : string) :
  ~ In f temporary_files ->
  (forall args m rc m', spawn w args m = Some (rc, m') -> m' !! f = m !! f) ->
  fs (run (F := F) w).2 !! f = files w !! f.
Proof.
  intros Hf Hprograms.
  apply (keeps_main (F := F) w f (files w !! f) Hf Hprograms (initial w)).
  reflexivity.
Qed.
End FrameClaim.

(** ** The statuses that the external programs return *)

Lemma sim_bind {A A' B B'} (V : A -> A' -> Prop) (W : B -> B' -> Prop)
    (m : M A) (m' : M A') (k : A -> M B) (k' : A' -> M B') :
  sim V m m' -> (forall a a', V a a' -> sim W (k a) (k' a')) ->
  sim W (x <- m;; k x) (x <- m';; k' x).
Proof.
  intros Hm Hk st st' Hst. destruct (Hm st st' Hst) as [Hres Hst1]. unfold bind.
  destruct (m st) as [[a| |e] st1], (m' st') as [[a'| |e'] st1'];
    simpl in *; try contradiction.
  - now apply Hk.
  - now split.
  - now split.
Qed.

Lemma sim_try_except {A A'} (V : A -> A' -> Prop) (body handler : M A) (body' handler' : M A') :
  sim V body body' -> sim V handler handler' ->
  sim V (try_except body handler) (try_except body' handler').
Proof.
  intros Hb Hh st st' Hst. destruct (Hb st st' Hst) as [Hres Hst1]. unfold try_except.
  destruct (body st) as [[a| |e] st1], (body' st') as [[a'| |e'] st1'];
    simpl in *; try contradiction.
  - now split.
  - now apply Hh.
  - now apply Hh.
Qed.

Lemma sim_for_range indices (body body' : nat -> M unit) :
  (forall i, sim eq (body i) (body' i)) ->
  sim eq (for_range indices body) (for_range indices body').
Proof.
  intros Hbody. induction indices as [|i rest IH].
  - intros st st' Hst. now split.
  - simpl. apply sim_bind with (V := eq); [apply Hbody|]. intros _ _ _. exact IH.
Qed.

(** A computation that reads the file system only and adds the same
    actions whatever the statuses recorded so far. *)
Lemma sim_local {A} (m : M A) :
  (forall st st', same_but_rc st st' ->
     (m st).1 = (m st').1 /\ same_but_rc (m st).2 (m st').2) ->
  sim eq m m.
Proof.
  intros Hm st st' Hst. destruct (Hm st st' Hst) as [Hres Hst1]. split; [|exact Hst1].
  rewrite Hres. destruct (m st').1; simpl; auto.
Qed.

Lemma sim_ret {A} (a : A) : sim eq (ret a) (ret a).
Proof. apply sim_local. intros st st' Hst. now split. Qed.

Lemma sim_lift {A} (r : res A) : sim eq (lift r) (lift r).
Proof. apply sim_local. intros st st' Hst. now split. Qed.

Lemma sim_sys_exit {A} : sim eq (@sys_exit A) (@sys_exit A).
Proof. apply sim_local. intros st st' Hst. now split. Qed.

Lemma sim_read_name {A} (binding : option A) : sim eq (read_name binding) (read_name binding).
Proof. apply sim_local. intros st st' Hst. destruct binding; now split. Qed.

Lemma sim_print text : sim eq (print text) (print text).
Proof.
  apply sim_local. intros st st' [Hfs Htrace]. split; [reflexivity|].
  split; [exact Hfs|]. simpl. now rewrite !map_app, Htrace.
Qed.

Lemma sim_read_file file : sim eq (read_file file) (read_file file).
Proof.
  apply sim_local. intros st st' [Hfs Htrace]. unfold read_file. rewrite Hfs.
  destruct (fs st' !! file); now split.
Qed.

Lemma sim_open_append file : sim eq (open_append file) (open_append file).
Proof.
  apply sim_local. intros st st' [Hfs Htrace]. split; [reflexivity|].
  split; simpl; [now rewrite Hfs|exact Htrace].
Qed.

Lemma sim_f_write file text : sim eq (f_write file text) (f_write file text).
Proof.
  apply sim_local. intros st st' [Hfs Htrace]. split; [reflexivity|].
  split; simpl; [now rewrite Hfs|now rewrite !map_app, Htrace].
Qed.

Lemma sim_os_remove file : sim eq (os_remove file) (os_remove file).
Proof.
  apply sim_local. intros st st' [Hfs Htrace]. unfold os_remove. rewrite Hfs.
  destruct (fs st' !! file); (split; [reflexivity|]); split; simpl; auto.
  now rewrite !map_app, Htrace.
Qed.

Section Statuses.
Context {F : Type} `{Numpy F}.
Variables (w : World) (g : list string -> Z -> Z).

Let w' : World := with_spawn w (recode g (spawn w)).

Lemma sim_subprocess_call args :
  sim (fun _ _ => True) (subprocess_call w' args) (subprocess_call w args).
Proof.
  intros st st' [Hfs Htrace]. unfold subprocess_call, w', with_spawn, recode. simpl.
  rewrite Hfs. destruct (spawn w args (fs st')) as [[rc m']|]; simpl.
  - split; [exact Logic.I|]. split; [reflexivity|]. simpl. now rewrite !map_app, Htrace.
  - split; [reflexivity|]. split; [exact Hfs|]. simpl. now rewrite !map_app, Htrace.
Qed.

Lemma sim_call_helper cmd :
  sim (fun _ _ => True) (call_helper w' cmd) (call_helper w cmd).
Proof.
  apply sim_try_except; [apply sim_subprocess_call|].
  apply sim_bind with (V := eq); [apply sim_read_name|].
  intros py _ <-. apply sim_subprocess_call.
Qed.

Lemma sim_announced_helper text cmd :
  sim eq (print text;; call_helper w' cmd;; ret tt) (print text;; call_helper w cmd;; ret tt).
Proof.
  apply sim_bind with (V := eq); [apply sim_print|intros _ _ _].
  apply sim_bind with (V := fun _ _ => True); [apply sim_call_helper|intros _ _ _].
  apply sim_ret.
Qed.

Lemma sim_areas_stage file : sim eq (areas_stage (F := F) file) (areas_stage (F := F) file).
Proof.
  unfold areas_stage, np_loadtxt, count_lines, append_areas, write_single,
    write_multi, write_indexed.
  repeat first
    [ apply sim_bind with (V := eq); [|intros ? ? <-]
    | apply sim_read_file | apply sim_lift | apply sim_ret
    | apply sim_open_append | apply sim_f_write
    | apply sim_for_range; intros ?
    | match goal with |- sim _ (if ?b then _ else _) _ => destruct b end ].
Qed.

Lemma sim_run_triangle : sim eq (run_triangle w') (run_triangle w).
Proof.
  assert (Hengine : forall bin,
             sim eq (subprocess_call w' [bin; "-Dqa"; "mesh.poly"];; ret tt)
                    (subprocess_call w [bin; "-Dqa"; "mesh.poly"];; ret tt)).
  { intros bin. apply sim_bind with (V := fun _ _ => True);
      [apply sim_subprocess_call|intros _ _ _; apply sim_ret]. }
  unfold run_triangle.
  change (os_name w') with (os_name w). change (uname_machine w') with (uname_machine w).
  change (pputils_path w') with (pputils_path w).
  repeat match goal with |- sim _ (if ?b then _ else _) _ => destruct b end;
    try apply Hengine.
  - apply sim_ret.
  - apply sim_bind with (V := eq); [apply sim_print|intros _ _ _].
    apply sim_bind with (V := eq); [apply sim_print|intros _ _ _].
    apply sim_sys_exit.
Qed.

Lemma sim_main : sim eq (main (F := F) w') (main (F := F) w).
Proof.
  unfold main. apply sim_bind with (V := eq); [|intros a ? <-].
  { change (parse_args w') with (parse_args w). unfold parse_args.
    destruct (length (argv w) =? 13)%nat; [apply sim_ret|].
    repeat (apply sim_bind with (V := eq); [apply sim_print|intros _ _ _]).
    apply sim_sys_exit. }
  apply sim_bind with (V := eq); [apply sim_announced_helper|intros _ _ _].
  apply sim_bind with (V := eq); [apply sim_areas_stage|intros _ _ _].
  apply sim_bind with (V := eq); [apply sim_run_triangle|intros _ _ _].
  apply sim_bind with (V := eq); [apply sim_announced_helper|intros _ _ _].
  apply sim_bind with (V := eq); [|intros _ _ _; apply sim_announced_helper].
  unfold remove_temporary_files.
  repeat (apply sim_bind with (V := eq); [|intros _ _ _]); apply sim_os_remove.
Qed.
End Statuses.

Section StatusesClaim.
Context {F : Type} `{Numpy F}.

(** X3.  The script never looks at the status that an external program
    returns: with external programs that start in the same cases and leave
    the same files but return other statuses, a run ends the same way, with
    the same files, after the same actions; only the statuses recorded for
    the calls differ. *)
Theorem return_codes_are_ignored (w : World) (g : list string -> Z -> Z) :
  let w' := with_spawn w (recode g (spawn w)) in
  (run (F := F) w').1 = (run (F := F) w).1 /\
  fs (run (F := F) w').2 = fs (run (F := F) w).2 /\
  map forget_rc (trace (run (F := F) w').2) = map forget_rc (trace (run (F := F) w).2).
Proof.
  intros w'.
  destruct (sim_main (F := F) w g (initial w') (initial w)) as [Hres [Hfs Htrace]].
  { now split. }
  fold w' in Hres, Hfs, Htrace.
  change (main w' (initial w')) with (run (F := F) w') in *.
  change (main w (initial w)) with (run (F := F) w) in *.
  split; [|split; assumption].
  destruct (run w').1 as [[]| |e], (run w).1 as [[]| |e']; simpl in Hres;
    try contradiction; congruence.
Qed.
End StatusesClaim.

(** ** A run in which every external program does its part *)



Section HappyPath.
Context {F : Type} `{Numpy F}.

End HappyPath.

(** ** An operating system without a binary *)

Section UnsupportedOS.
Context {F : Type} `{Numpy F}.

(** X12.  On an operating system that is neither [posix] nor [nt] no run
    ends normally.  The operating system is looked at only at the engine
    stage: when the first helper script and the area block have gone
    through, the run ends there through [sys.exit()] after the two
    messages, with the exit status 0. *)
Theorem unsupported_os_exits_with_status_zero (w : World) :
  os_name w <> "posix" -> os_name w <> "nt" ->
  (run (F := F) w).1 <> Ok tt /\
  (forall st,
     length (argv w) = 13 ->
     (gis2triangle w (names_of (argv w));;
      areas_stage (F := F) (areas_file (names_of (argv w)))) (initial w) = (Ok tt, st) ->
     run (F := F) w
     = (SysExit, log (EvPrint "Exiting!") (log (EvPrint "OS not supported!") st)) /\
     exit_status (run (F := F) w).1 = 0%Z).
Proof.
  intros Hposix Hnt. split.
  - unfold run, main, bind.
    destruct (parse_args w (initial w)) as [[a| |e] st0]; [|discriminate..].
    destruct (gis2triangle w a st0) as [[[]| |e] st1]; [|discriminate..].
    destruct (areas_stage (areas_file a) st1) as [[[]| |e] st2]; [|discriminate..].
    rewrite (run_triangle_unknown_os w st2 Hposix Hnt). discriminate.
  - intros st Hlen Hreach.
    assert (Hrun : run (F := F) w
                   = (SysExit, log (EvPrint "Exiting!") (log (EvPrint "OS not supported!") st))).
    { unfold run, main. rewrite (bind_ok _ _ _ _ _ (parse_args_ok w _ Hlen)).
      unfold bind in Hreach |- *.
      destruct (gis2triangle w (names_of (argv w)) (initial w)) as [[[]| |e] st1];
        [|discriminate..].
      rewrite Hreach. now rewrite (run_triangle_unknown_os w st Hposix Hnt). }
    split; [exact Hrun|]. now rewrite Hrun.
Qed.
End UnsupportedOS.

(** ** Further properties on concrete surroundings *)

Lemma python3_is_chosen : pystr linux64 = Some "python3".
Proof.
  apply (interpreter_name_by_version linux64 3 8 10); [reflexivity..|lia|lia].
Defined.

Lemma off_path_run_is_retried :
  (run (F := string) off_path_unrooted).1 <> Raise NameError.
Proof.
  apply (fallback_retries_through_interpreter (F := string) off_path_unrooted "python3").
  reflexivity.
Defined.

Lemma demo_spawn_leaves (f : string) rc args m rc' m' :
  ~ In f ["mesh.poly"; "mesh.grd"; "meshWKT.csv"; "mesh.1.poly"; "mesh.1.node"; "mesh.1.ele"] ->
  demo_spawn rc args m = Some (rc', m') -> m' !! f = m !! f.
Proof.
  intros Hf. unfold demo_spawn, engine_output. destruct args as [|prog args]; [discriminate|].
  repeat match goal with |- context [if ?b then _ else _] => destruct b end;
    intros E; injection E as _ <-;
    rewrite ?lookup_insert_ne; try reflexivity;
    intros <-; apply Hf; simpl; tauto.
Qed.




Lemma areas_file_is_left_alone :
  fs (run (F := string) linux64).2 !! "areas.csv" = Some two_areas.
Proof.
  rewrite (other_files_are_left_alone (F := string) linux64 "areas.csv").
  - reflexivity.
  - simpl. intuition discriminate.
  - intros args m rc m'. apply demo_spawn_leaves. simpl. intuition discriminate.
Defined.







Lemma only_poly_is_removed :
  remove_temporary_files poly_written
  = (Raise OSError,
     {| fs := delete "mesh.poly" (fs poly_written);
        trace := [EvRemove "mesh.poly"] |}).
Proof.
  apply (cleanup_stops_at_first_missing_file poly_written 1).
  - lia.
  - intros f [<-|[]]. vm_compute. eauto.
  - intros f E. injection E as <-. reflexivity.
Defined.

Lemma mesh_grd_wkt_name :
  wkt_file (names_of (demo_argv "areas.csv")) = "meshWKT.csv".
Proof.
  destruct (wkt_file_name (names_of (demo_argv "areas.csv"))) as (Hsplit & _ & _).
  apply (Hsplit "mesh" "grd").
  - reflexivity.
  - simpl. intuition discriminate.
Defined.

Lemma unknown_os_run_exits :
  exit_status (run (F := string) unknown_os).1 = 0%Z /\
  (run (F := string) unknown_os).1 = SysExit.
Proof.
  destruct (unsupported_os_exits_with_status_zero (F := string) unknown_os) as [_ Hexit];
    [discriminate..|].
  destruct (Hexit ((gis2triangle unknown_os (names_of (argv unknown_os));;
                    areas_stage (F := string) (areas_file (names_of (argv unknown_os))))
                     (initial unknown_os)).2) as [Hrun Hstatus];
    [reflexivity..|].
  split; [exact Hstatus|]. now rewrite Hrun.
Defined.
